(** * RecastNavigationJSPlugin: navmesh plugin and crowd simulator

    A shallow embedding of [src/RecastNavigationJSPlugin.ts].

    JavaScript numbers are modelled as rationals ([Q]): the finite doubles
    are rationals, comparisons and [Math.floor] are exact on them, and the
    two divisions of the sub-stepping rule, whose floor decides the number
    of sub-steps, are rounded to the nearest double as the platform rounds
    them ([Qdiv64]); sums, differences and products are taken exactly.
    Arrays are lists read with stdpp's lookup ([l !! i],
    [None] for JavaScript's [undefined]) and written with stdpp's insert and
    delete; a typed array can also be detached ([TypedArray]).  The objects of
    the recast-navigation library and of Babylon.js that the plugin only
    calls (navmesh generation, queries, the detour crowd) are taken as an
    interface, [Recast], over which every definition is parametric. *)

From Stdlib Require Import ZArith QArith Qabs Qpower Qround Lia Lqa Bool String.
From stdpp Require Import base list.

Local Open Scope Z_scope.

(** ** Numbers and vectors *)

(** [a < b] on JavaScript numbers, as a boolean. *)
Definition Qlt_bool (a b : Q) : bool := negb (Qle_bool b a).

(** Truthiness of a number: every number but 0 is truthy. *)
Definition truthy (n : Q) : bool := negb (Qeq_bool n 0).

(** Truthiness of a nullable reference: [null] and [undefined] are falsy. *)
Definition defined {A : Type} (o : option A) : bool :=
  match o with Some _ => true | None => false end.

(** *** Doubles

    The result of a division of two numbers is the double nearest to the
    exact quotient, and of two nearest doubles the one with the even
    significand (IEEE 754, binary64, round to nearest, ties to even).  A
    double is a whole multiple [m * 2 ^ e] of a power of two with
    [m < 2 ^ 53] and [-1074 <= e]. *)

(** [floor (log2 a)], for a positive [a]: the two bit lengths give it up to
    one. *)
Definition Qlog2 (a : Q) : Z :=
  let g := Z.log2 (Qnum a) - Z.log2 (Zpos (Qden a)) in
  if Qle_bool (2 ^ g) a then g else g - 1.

(** The whole number nearest to [r]; halfway between two, the even one. *)
Definition round_half_even (r : Q) : Z :=
  let f := Qfloor r in
  match (r - inject_Z f ?= 1 # 2)%Q with
  | Lt => f
  | Eq => if Z.even f then f else f + 1
  | Gt => f + 1
  end.

(** The double nearest to [q].  The unit [2 ^ e] of the last place lies 52
    binary places below the leading bit of [q], and no lower than the unit
    of the subnormal numbers.  Beyond [max_value] the platform rounds to
    [Infinity], which is not a rational: [round64] is the platform's
    rounding up to there. *)
Definition round64 (q : Q) : Q :=
  if Qeq_bool q 0 then 0%Q
  else
    let a := Qabs q in
    let e := Z.max (Qlog2 a - 52) (-1074) in
    let m := round_half_even (a / 2 ^ e) in
    let r := (inject_Z m * 2 ^ e)%Q in
    if Qle_bool 0 q then r else (- r)%Q.

(** [Number.MAX_VALUE], the largest double. *)
Definition max_value : Q := (2 ^ 1024 - 2 ^ 971)%Q.

(** [a / b] on numbers. *)
Definition Qdiv64 (a b : Q) : Q := round64 (a / b).

(** Babylon's [Vector3]; recast's plain [{x, y, z}] objects have the same
    shape and share the type. *)
Record Vector3 := mkVector3 { x : Q; y : Q; z : Q }.

Definition Vector3_Zero : Vector3 := mkVector3 0 0 0.

(** What a call did: it returned, or it threw with the given message. *)
Inductive Outcome :=
| Returned
| Thrown (message : string).

(** ** The host engine's meshes *)

(** A Babylon [Mesh], as far as [createNavMesh] looks at it: the two
    nullable buffers. *)
Record Mesh := mkMesh {
  getVerticesData : option (list Q);
  getIndices : option (list Q)
}.

(** A typed array ([Float32Array]): its items, or detached, once its
    buffer was transferred to a worker. *)
Inductive TypedArray :=
| Attached (items : list Q)
| Detached.

(** ** What the plugin takes from its libraries

    The classes and functions of recast-navigation that the plugin calls,
    with the state of a library object passed in and handed back where a
    call changes it, and two things of the platform: Babylon's [Epsilon]
    and the rounding of [Float32Array]. *)

Class Recast := {
  NavMesh : Type;
  NavMeshQuery : Type;
  TileCache : Type;
  IObstacle : Type;
  NavPath : Type;
  Crowd : Type;
  CrowdAgent : Type;
  CrowdAgentParams : Type;
  (** the constant [Epsilon] of @babylonjs/core/Maths/math, a small
      positive number *)
  Epsilon : Q;
  Epsilon_pos : (0 < Epsilon)%Q;
  (** rounding of a number to 32-bit precision, as [Float32Array.from] does *)
  fround : Q -> Q;
  (** [generateSoloNavMesh(positions, indices)]: [{ success, navMesh }] *)
  generateSoloNavMesh : list Q -> list Q -> bool * option NavMesh;
  (** [generateTileCache(positions, indices, { tileSize })]:
      [{ success, navMesh, tileCache }] *)
  generateTileCache : list Q -> list Q -> Z -> bool * option NavMesh * option TileCache;
  (** [importNavMesh(data).navMesh] *)
  importNavMesh : list Byte.byte -> option NavMesh;
  (** [new NavMeshQuery(navMesh)] *)
  new_NavMeshQuery : option NavMesh -> NavMeshQuery;
  (** [query.computePath(start, end)] *)
  query_computePath : NavMeshQuery -> Vector3 -> Vector3 -> NavPath;
  getPointCount : NavPath -> Z;
  getPoint : NavPath -> Z -> Vector3;
  (** obstacles of the tile cache: the cache after the call and the handle
      the call returned ([None] for [null] or [undefined]) *)
  tc_addCylinderObstacle : TileCache -> Vector3 -> Q -> Q -> TileCache * option IObstacle;
  tc_addBoxObstacle : TileCache -> Vector3 -> Vector3 -> Q -> TileCache * option IObstacle;
  tc_removeObstacle : TileCache -> IObstacle -> TileCache;
  (** the detour crowd *)
  crowd_addAgent : Crowd -> Vector3 -> CrowdAgentParams -> Crowd * Z;
  crowd_getAgent : Crowd -> Z -> option CrowdAgent;
  crowd_removeAgent : Crowd -> Z -> Crowd;
  crowd_update : Crowd -> Q -> Crowd;
  agent_position : Crowd -> CrowdAgent -> Vector3;
  agent_requestMoveTarget : Crowd -> CrowdAgent -> Vector3 -> Crowd;
  agent_teleport : Crowd -> CrowdAgent -> Vector3 -> Crowd;
  (** the parameter object handed to [crowd.addAgent]: the seven plain
      fields and the reach radius *)
  mkAgentParams : Q -> Q -> Q -> Q -> Q -> Q -> Q -> Q -> CrowdAgentParams
}.

(** ** class RecastNavigationJSPlugin *)

Module RecastNavigationJSPlugin.
Section WithRecast.
Context `{R : Recast}.

Record t := mk {
  navMesh : option NavMesh;
  _navMeshQuery : option NavMeshQuery;
  _maximumSubStepCount : Q;
  _timeStep : Q;
  _timeFactor : Q;
  _tempVec1 : Vector3;
  _tempVec2 : Vector3;
  _tileCache : option TileCache;
  _worker : option nat;
  _positions : TypedArray;
  _indices : TypedArray
}.

(** The fields as the class initialises them and the constructor leaves
    them ([isSupported] is constantly true). *)
Definition new : t :=
  {| navMesh := None; _navMeshQuery := None;
     _maximumSubStepCount := 10; _timeStep := Qdiv64 1 60; _timeFactor := 1;
     _tempVec1 := Vector3_Zero; _tempVec2 := Vector3_Zero;
     _tileCache := None; _worker := None;
     _positions := Attached []; _indices := Attached [] |}.

Definition set_navMesh (p : t) (v : option NavMesh) : t :=
  mk v (_navMeshQuery p) (_maximumSubStepCount p) (_timeStep p) (_timeFactor p)
     (_tempVec1 p) (_tempVec2 p) (_tileCache p) (_worker p) (_positions p) (_indices p).

Definition set_navMeshQuery (p : t) (v : option NavMeshQuery) : t :=
  mk (navMesh p) v (_maximumSubStepCount p) (_timeStep p) (_timeFactor p)
     (_tempVec1 p) (_tempVec2 p) (_tileCache p) (_worker p) (_positions p) (_indices p).

Definition set_tempVec1 (p : t) (v : Vector3) : t :=
  mk (navMesh p) (_navMeshQuery p) (_maximumSubStepCount p) (_timeStep p) (_timeFactor p)
     v (_tempVec2 p) (_tileCache p) (_worker p) (_positions p) (_indices p).

Definition set_tempVec2 (p : t) (v : Vector3) : t :=
  mk (navMesh p) (_navMeshQuery p) (_maximumSubStepCount p) (_timeStep p) (_timeFactor p)
     (_tempVec1 p) v (_tileCache p) (_worker p) (_positions p) (_indices p).

Definition set_tileCache (p : t) (v : option TileCache) : t :=
  mk (navMesh p) (_navMeshQuery p) (_maximumSubStepCount p) (_timeStep p) (_timeFactor p)
     (_tempVec1 p) (_tempVec2 p) v (_worker p) (_positions p) (_indices p).

Definition set_positions (p : t) (v : TypedArray) : t :=
  mk (navMesh p) (_navMeshQuery p) (_maximumSubStepCount p) (_timeStep p) (_timeFactor p)
     (_tempVec1 p) (_tempVec2 p) (_tileCache p) (_worker p) v (_indices p).

Definition set_indices (p : t) (v : TypedArray) : t :=
  mk (navMesh p) (_navMeshQuery p) (_maximumSubStepCount p) (_timeStep p) (_timeFactor p)
     (_tempVec1 p) (_tempVec2 p) (_tileCache p) (_worker p) (_positions p) v.

Definition setWorker (p : t) (worker : nat) : t :=
  mk (navMesh p) (_navMeshQuery p) (_maximumSubStepCount p) (_timeStep p) (_timeFactor p)
     (_tempVec1 p) (_tempVec2 p) (_tileCache p) (Some worker) (_positions p) (_indices p).

Definition setTimeStep (p : t) (newTimeStep : Q) : t :=
  mk (navMesh p) (_navMeshQuery p) (_maximumSubStepCount p) newTimeStep (_timeFactor p)
     (_tempVec1 p) (_tempVec2 p) (_tileCache p) (_worker p) (_positions p) (_indices p).

Definition getTimeStep (p : t) : Q := _timeStep p.

Definition setMaximumSubStepCount (p : t) (newStepCount : Q) : t :=
  mk (navMesh p) (_navMeshQuery p) newStepCount (_timeStep p) (_timeFactor p)
     (_tempVec1 p) (_tempVec2 p) (_tileCache p) (_worker p) (_positions p) (_indices p).

Definition getMaximumSubStepCount (p : t) : Q := _maximumSubStepCount p.

(** *** createNavMesh *)

(** The message posted to the worker: [{ positions, indices, config }]. *)
Record WorkerMessage := mkWorkerMessage {
  msg_positions : list Q;
  msg_indices : list Q;
  msg_cs : Q;
  msg_ch : Q
}.

(** What one call of [createNavMesh] did: the plugin after it, the warning
    it logged, the message it posted to the worker, and how it ended. *)
Record Created := mkCreated {
  created_plugin : t;
  created_warning : option string;
  created_posted : option WorkerMessage;
  created_outcome : Outcome
}.

Definition createNavMesh_warning (p : t) (completion : bool) : option string :=
  if defined (_worker p) then
    if completion then None
    else Some "A worker is avaible but no completion callback. Defaulting to blocking navmesh creation"%string
  else
    if completion
    then Some "A completion callback is avaible but no worker. Defaulting to blocking navmesh creation"%string
    else None.

(** [completion] tells whether the caller passed a completion callback. *)
Definition createNavMesh (p : t) (meshes : list Mesh) (completion : bool) : Created :=
  let warning := createNavMesh_warning p completion in
  match meshes with
  | [] =>
      mkCreated p warning None
        (Thrown "At least one mesh is needed to create the nav mesh.")
  | mesh0 :: _ =>
      let positions := map fround (default [] (getVerticesData mesh0)) in
      let indices := map fround (default [] (getIndices mesh0)) in
      let p := set_positions p (Attached positions) in
      let p := set_indices p (Attached indices) in
      if defined (_worker p) && completion then
        (* the two buffers are transferred to the worker with the message,
           which detaches the arrays the plugin keeps *)
        let p := set_positions p Detached in
        let p := set_indices p Detached in
        mkCreated p warning
          (Some (mkWorkerMessage positions indices (5 # 100) (2 # 10))) Returned
      else
        (* [!positions || !indices] is false: a typed array is truthy *)
        let '(success, navMesh) := generateSoloNavMesh positions indices in
        if negb success then
          mkCreated p warning None (Thrown "Unable to generateSoloNavMesh")
        else
          let p := set_navMesh p navMesh in
          let p := set_navMeshQuery p (Some (new_NavMeshQuery navMesh)) in
          mkCreated p warning None Returned
  end.

(** *** buildFromNavmeshData, and the worker's reply *)

Definition buildFromNavmeshData (p : t) (data : list Byte.byte) : t :=
  set_navMesh p (importNavMesh data).

(** The [onmessage] handler [createNavMesh] installs on the worker; the
    call of the caller's [completion] in between does not touch the
    plugin. *)
Definition worker_onmessage (p : t) (data : list Byte.byte) : t :=
  let p := buildFromNavmeshData p data in
  set_navMeshQuery p (Some (new_NavMeshQuery (navMesh p))).

(** *** Paths *)

Fixpoint convert_loop (navPath : NavPath) (pt : Z) (remaining : nat) : list Vector3 :=
  match remaining with
  | O => []
  | S remaining =>
      let p := getPoint navPath pt in
      mkVector3 (x p) (y p) (z p) :: convert_loop navPath (pt + 1) remaining
  end.

(** The loop runs for [pt = 0, 1, ...] while [pt < pointCount]. *)
Definition _convertNavPathPoints (navPath : NavPath) : list Vector3 :=
  let pointCount := getPointCount navPath in
  convert_loop navPath 0 (Z.to_nat pointCount).

(** Both path queries return the plugin (its two scratch vectors are
    overwritten) and the path, or throw when no query context exists. *)
Definition computePath (p : t) (start end_ : Vector3) : t * option (list Vector3) :=
  let p := set_tempVec1 p (mkVector3 (x start) (y start) (z start)) in
  let p := set_tempVec2 p (mkVector3 (x end_) (y end_) (z end_)) in
  match _navMeshQuery p with
  | None => (p, None)
  | Some query =>
      let navPath := query_computePath query (_tempVec1 p) (_tempVec2 p) in
      (p, Some (_convertNavPathPoints navPath))
  end.

Definition computePathSmooth (p : t) (start end_ : Vector3) : t * option (list Vector3) :=
  let p := set_tempVec1 p (mkVector3 (x start) (y start) (z start)) in
  let p := set_tempVec2 p (mkVector3 (x end_) (y end_) (z end_)) in
  (* TODO: computePathSmooth *)
  match _navMeshQuery p with
  | None => (p, None)
  | Some query =>
      let navPath := query_computePath query (_tempVec1 p) (_tempVec2 p) in
      (p, Some (_convertNavPathPoints navPath))
  end.

(** *** The tile cache and its obstacles *)

(** Returns the plugin, whether the error was logged, and how the call
    ended.  The generator copies the two arrays into the memory of the
    library, which throws a TypeError on a detached array. *)
Definition _createTileCache (p : t) : t * bool * Outcome :=
  match _tileCache p with
  | Some _ => (p, false, Returned)
  | None =>
      match _positions p, _indices p with
      | Attached positions, Attached indices =>
          let '(success, navMesh, tileCache) :=
            generateTileCache positions indices 16 in
          if negb success then (p, true, Returned)
          else
            let p := set_tileCache p tileCache in
            let p := set_navMesh p navMesh in
            (p, false, Returned)
      | _, _ => (p, false, Thrown "TypeError")
      end
  end.

(** The two insertions return the plugin, the obstacle ([None] for [null])
    and how the call ended: an exception of [_createTileCache] ends them. *)
Definition addCylinderObstacle (p : t) (position : Vector3) (radius height : Q)
  : t * option IObstacle * Outcome :=
  match _createTileCache p with
  | (p, _, Thrown message) => (p, None, Thrown message)
  | (p, _, Returned) =>
      let p := set_tempVec1 p (mkVector3 (x position) (y position) (z position)) in
      match _tileCache p with
      | None => (p, None, Returned)
      | Some tc =>
          let '(tc, obstacle) :=
            tc_addCylinderObstacle tc (_tempVec1 p) radius height in
          (set_tileCache p (Some tc), obstacle, Returned)
      end
  end.

Definition addBoxObstacle (p : t) (position extent : Vector3) (angle : Q)
  : t * option IObstacle * Outcome :=
  match _createTileCache p with
  | (p, _, Thrown message) => (p, None, Thrown message)
  | (p, _, Returned) =>
      let p := set_tempVec1 p (mkVector3 (x position) (y position) (z position)) in
      let p := set_tempVec2 p (mkVector3 (x extent) (y extent) (z extent)) in
      match _tileCache p with
      | None => (p, None, Returned)
      | Some tc =>
          let '(tc, obstacle) :=
            tc_addBoxObstacle tc (_tempVec1 p) (_tempVec2 p) angle in
          (set_tileCache p (Some tc), obstacle, Returned)
      end
  end.


End WithRecast.
End RecastNavigationJSPlugin.

(** ** class RecastJSCrowd *)

(** Babylon's [TransformNode], as far as the crowd touches it. *)
Record TransformNode := mkTransformNode {
  node_name : string;
  position : Vector3
}.

(** Babylon's [IAgentParameters]; [reachRadius] is optional. *)
Record IAgentParameters := mkIAgentParameters {
  radius : Q;
  height : Q;
  maxAcceleration : Q;
  maxSpeed : Q;
  collisionQueryRange : Q;
  pathOptimizationRange : Q;
  separationWeight : Q;
  reachRadius : option Q
}.

(** The record [onReachTargetObservable] delivers to its observers. *)
Record Reached := mkReached {
  agentIndex : Z;
  destination : Vector3
}.

(** [array.indexOf(x)], counting from [i]: the first position, or -1. *)
Fixpoint indexOf_from (l : list Z) (x : Z) (i : Z) : Z :=
  match l with
  | [] => -1
  | y :: l => if Z.eqb y x then i else indexOf_from l x (i + 1)
  end.

Definition indexOf (l : list Z) (x : Z) : Z := indexOf_from l x 0.

(** [flags[i] = v] on an array of booleans.  Past the end JavaScript
    extends the array and leaves holes; a hole reads as [undefined], which
    the only reader (the [if] of [update]) takes for false, so a hole is
    written as [false] here. *)
Definition array_set (flags : list bool) (i : nat) (v : bool) : list bool :=
  if (i <? length flags)%nat then <[i := v]> flags
  else flags ++ replicate (i - length flags) false ++ [v].

Module RecastJSCrowd.
Section WithRecast.
Context `{R : Recast}.

(** The plugin the crowd points to ([bjsRECASTPlugin]) is shared with the
    application, which may change its settings between two ticks: it is
    passed to [update] instead of being copied into the crowd. *)
Record t := mk {
  recastCrowd : Crowd;
  transforms : list TransformNode;
  agents : list Z;
  reachRadii : list Q;
  _agentDestinationArmed : list bool;
  _agentDestination : list Vector3
}.

(** The arrays of a crowd that was just constructed around [crowd]. *)
Definition new (crowd : Crowd) : t := mk crowd [] [] [] [] [].

Definition set_recastCrowd (c : t) (crowd : Crowd) : t :=
  mk crowd (transforms c) (agents c) (reachRadii c)
     (_agentDestinationArmed c) (_agentDestination c).

(** *** addAgent *)

Definition addAgent (c : t) (pos : Vector3) (parameters : IAgentParameters)
    (transform : TransformNode) : t * Z :=
  let agentParams :=
    mkAgentParams (radius parameters) (height parameters)
      (maxAcceleration parameters) (maxSpeed parameters)
      (collisionQueryRange parameters) (pathOptimizationRange parameters)
      (separationWeight parameters)
      (match reachRadius parameters with
       | Some r => if truthy r then r else radius parameters
       | None => radius parameters
       end) in
  let '(crowd, agent) :=
    crowd_addAgent (recastCrowd c) (mkVector3 (x pos) (y pos) (z pos)) agentParams in
  (mk crowd
      (transforms c ++ [transform])
      (agents c ++ [agent])
      (* this.reachRadii.push(...) is commented out *)
      (reachRadii c)
      (_agentDestinationArmed c ++ [false])
      (_agentDestination c ++ [mkVector3 0 0 0]),
   agent).

(** *** getAgentPosition *)

Definition getAgentPosition (c : t) (index : Z) : Vector3 :=
  let agentPos :=
    match crowd_getAgent (recastCrowd c) index with
    | Some agent => agent_position (recastCrowd c) agent
    | None => mkVector3 0 0 0
    end in
  mkVector3 (x agentPos) (y agentPos) (z agentPos).

(** *** agentGoto, agentTeleport *)

(** Throws a TypeError when the slot has no destination vector to [set]. *)
Definition agentGoto (c : t) (index : Z) (dest : Vector3) : t * Outcome :=
  let crowd :=
    match crowd_getAgent (recastCrowd c) index with
    | Some agent => agent_requestMoveTarget (recastCrowd c) agent dest
    | None => recastCrowd c
    end in
  let c := set_recastCrowd c crowd in
  (* arm observer *)
  let item := indexOf (agents c) index in
  if -1 <? item then
    let armed := array_set (_agentDestinationArmed c) (Z.to_nat item) true in
    match _agentDestination c !! Z.to_nat item with
    | None =>
        (mk (recastCrowd c) (transforms c) (agents c) (reachRadii c) armed
            (_agentDestination c),
         Thrown "TypeError")
    | Some _ =>
        (mk (recastCrowd c) (transforms c) (agents c) (reachRadii c) armed
            (<[Z.to_nat item := mkVector3 (x dest) (y dest) (z dest)]>
               (_agentDestination c)),
         Returned)
    end
  else (c, Returned).

Definition agentTeleport (c : t) (index : Z) (dest : Vector3) : t :=
  match crowd_getAgent (recastCrowd c) index with
  | Some agent => set_recastCrowd c (agent_teleport (recastCrowd c) agent dest)
  | None => c
  end.

(** *** removeAgent *)

(** [splice(item, 1)] is stdpp's [delete]: past the end of an array both
    remove nothing. *)
Definition removeAgent (c : t) (index : Z) : t :=
  let c := set_recastCrowd c (crowd_removeAgent (recastCrowd c) index) in
  let item := indexOf (agents c) index in
  if -1 <? item then
    let item := Z.to_nat item in
    mk (recastCrowd c)
       (delete item (transforms c))
       (delete item (agents c))
       (delete item (reachRadii c))
       (delete item (_agentDestinationArmed c))
       (delete item (_agentDestination c))
  else c.

Definition getAgents (c : t) : list Z := agents c.

(** *** update *)

(** The crowd-stepping part of [update] (after the early return): the
    arguments of its successive calls of [recastCrowd.update].  The [for]
    loop runs for [i = 0, 1, ...] while [i < iterationCount], that is
    [ceiling iterationCount] times. *)
Definition sub_steps (timeStep maxStepCount deltaTime : Q) : list Q :=
  if Qle_bool timeStep Epsilon then [deltaTime]
  else
    let iterationCount := inject_Z (Qfloor (Qdiv64 deltaTime timeStep)) in
    let iterationCount :=
      if truthy maxStepCount && Qlt_bool maxStepCount iterationCount
      then maxStepCount else iterationCount in
    let iterationCount :=
      if Qlt_bool iterationCount 1 then 1%Q else iterationCount in
    let step := Qdiv64 deltaTime iterationCount in
    replicate (Z.to_nat (Qceiling iterationCount)) step.

(** The test of the [if] that reports an arrival.  [reach] is
    [reachRadii[index]]; when it is [undefined] the bounds are NaN and
    every comparison is false. *)
Definition arrival_test (agentPosition dest : Vector3) (reach : option Q) : bool :=
  match reach with
  | None => false
  | Some radius =>
      let dx := (x agentPosition - x dest)%Q in
      let dz := (z agentPosition - z dest)%Q in
      let groundY := (y dest - radius)%Q in
      let ceilingY := (y dest + radius)%Q in
      let distanceXZSquared := (dx * dx + dz * dz)%Q in
      Qlt_bool groundY (y agentPosition)
      && Qlt_bool (y agentPosition) ceilingY
      && Qlt_bool distanceXZSquared (radius * radius)
  end.

(** What the loop over the agents has written so far. *)
Record Tick := mkTick {
  tick_transforms : list TransformNode;
  tick_armed : list bool;
  tick_notified : list Reached
}.

(** One pass of the loop, for slot [index] holding agent [agent].  It throws
    a TypeError when the slot has no transform, or is armed and has no
    destination. *)
Definition update_agent (c : t) (index : nat) (agent : Z) (st : Tick)
  : Tick * Outcome :=
  let agentPosition := getAgentPosition c agent in
  match tick_transforms st !! index with
  | None => (st, Thrown "TypeError")
  | Some node =>
      let st :=
        mkTick (<[index := mkTransformNode (node_name node) agentPosition]>
                  (tick_transforms st))
               (tick_armed st) (tick_notified st) in
      (* check agent reach destination *)
      if default false (tick_armed st !! index) then
        match _agentDestination c !! index with
        | None => (st, Thrown "TypeError")
        | Some dest =>
            if arrival_test agentPosition dest (reachRadii c !! index) then
              (mkTick (tick_transforms st)
                      (<[index := false]> (tick_armed st))
                      (tick_notified st ++ [mkReached agent dest]),
               Returned)
            else (st, Returned)
        end
      else (st, Returned)
  end.

(** The loop [for (index = 0; index < agents.length; index++)], from slot
    [index] on; [rest] is what is left of [agents]. *)
Fixpoint update_agents (c : t) (rest : list Z) (index : nat) (st : Tick)
  : Tick * Outcome :=
  match rest with
  | [] => (st, Returned)
  | agent :: rest =>
      match update_agent c index agent st with
      | (st, Returned) => update_agents c rest (S index) st
      | thrown => thrown
      end
  end.

(** What one call of [update] did: the crowd after it; the arguments of all
    its calls of [recastCrowd.update], in order; of these, the ones made by
    the crowd-stepping part; the arrivals it notified; and how it ended. *)
Record Updated := mkUpdated {
  updated_crowd : t;
  updated_calls : list Q;
  updated_steps : list Q;
  updated_notified : list Reached;
  updated_outcome : Outcome
}.

Definition update (plugin : RecastNavigationJSPlugin.t) (c : t) (deltaTime : Q)
  : Updated :=
  (* update obstacles *)
  let c := set_recastCrowd c (crowd_update (recastCrowd c) deltaTime) in
  if Qle_bool deltaTime Epsilon then mkUpdated c [deltaTime] [] [] Returned
  else
    (* update crowd *)
    let timeStep := RecastNavigationJSPlugin.getTimeStep plugin in
    let maxStepCount := RecastNavigationJSPlugin.getMaximumSubStepCount plugin in
    let steps := sub_steps timeStep maxStepCount deltaTime in
    let c := set_recastCrowd c (fold_left crowd_update steps (recastCrowd c)) in
    (* update transforms *)
    let '(st, outcome) :=
      update_agents c (agents c) 0
        (mkTick (transforms c) (_agentDestinationArmed c) []) in
    mkUpdated
      (mk (recastCrowd c) (tick_transforms st) (agents c) (reachRadii c)
          (tick_armed st) (_agentDestination c))
      (deltaTime :: steps) steps (tick_notified st) outcome.

(** The observer the constructor registers on the scene: the engine's delta
    time is in milliseconds. *)
Definition onBeforeAnimations (plugin : RecastNavigationJSPlugin.t) (c : t)
    (deltaTimeMs : Q) : Updated :=
  update plugin c
    (deltaTimeMs * (1 # 1000) * RecastNavigationJSPlugin._timeFactor plugin)%Q.

End WithRecast.
End RecastJSCrowd.

(** ** Runs of calls *)

Section Runs.
Context `{R : Recast}.










(** A run of ticks: each [update] sees the plugin's settings of its time;
    an exception of one tick leaves the crowd as it is then and does not
    stop the next ticks.  The result is the crowd and all arrivals
    notified, in order. *)
Fixpoint run_updates (c : RecastJSCrowd.t)
    (ticks : list (RecastNavigationJSPlugin.t * Q))
  : RecastJSCrowd.t * list Reached :=
  match ticks with
  | [] => (c, [])
  | (plugin, deltaTime) :: ticks =>
      let u := RecastJSCrowd.update plugin c deltaTime in
      let '(c, later) := run_updates (RecastJSCrowd.updated_crowd u) ticks in
      (c, RecastJSCrowd.updated_notified u ++ later)
  end.

(** The calls an application makes on a crowd.  [reachRadii] is a public
    array that no method of the crowd fills: [SetReachRadii] stands for the
    application writing it. *)
Inductive CrowdCall :=
| AddAgent (pos : Vector3) (parameters : IAgentParameters) (transform : TransformNode)
| RemoveAgent (index : Z)
| AgentGoto (index : Z) (dest : Vector3)
| AgentTeleport (index : Z) (dest : Vector3)
| Update (plugin : RecastNavigationJSPlugin.t) (deltaTime : Q)
| SetReachRadii (radii : list Q).

Definition crowd_call (c : RecastJSCrowd.t) (call : CrowdCall) : RecastJSCrowd.t :=
  match call with
  | AddAgent pos parameters transform =>
      fst (RecastJSCrowd.addAgent c pos parameters transform)
  | RemoveAgent index => RecastJSCrowd.removeAgent c index
  | AgentGoto index dest => fst (RecastJSCrowd.agentGoto c index dest)
  | AgentTeleport index dest => RecastJSCrowd.agentTeleport c index dest
  | Update plugin deltaTime =>
      RecastJSCrowd.updated_crowd (RecastJSCrowd.update plugin c deltaTime)
  | SetReachRadii radii =>
      RecastJSCrowd.mk (RecastJSCrowd.recastCrowd c) (RecastJSCrowd.transforms c)
        (RecastJSCrowd.agents c) radii (RecastJSCrowd._agentDestinationArmed c)
        (RecastJSCrowd._agentDestination c)
  end.

Definition crowd_calls (c : RecastJSCrowd.t) (calls : list CrowdCall)
  : RecastJSCrowd.t :=
  fold_left crowd_call calls c.

(** The number of armed slots of agent [a] among the slots [index],
    [index + 1], ... that hold the agents [rest]. *)
Fixpoint armed_slots (a : Z) (rest : list Z) (index : nat) (armed : list bool) : nat :=
  match rest with
  | [] => O
  | b :: rest =>
      ((if Z.eqb b a && default false (armed !! index) then 1 else 0)
       + armed_slots a rest (S index) armed)%nat
  end.

(** The number of pending destinations of agent [a] in a crowd. *)
Definition pending (a : Z) (c : RecastJSCrowd.t) : nat :=
  armed_slots a (RecastJSCrowd.agents c) 0 (RecastJSCrowd._agentDestinationArmed c).

(** The number of notifications for agent [a]. *)
Definition arrivals_of (a : Z) (l : list Reached) : nat :=
  length (filter (fun r => agentIndex r = a) l).

(** The five per-agent arrays have one length. *)
Definition lockstep (c : RecastJSCrowd.t) : Prop :=
  length (RecastJSCrowd.transforms c) = length (RecastJSCrowd.agents c)
  /\ length (RecastJSCrowd.reachRadii c) = length (RecastJSCrowd.agents c)
  /\ length (RecastJSCrowd._agentDestinationArmed c) = length (RecastJSCrowd.agents c)
  /\ length (RecastJSCrowd._agentDestination c) = length (RecastJSCrowd.agents c).

(** The four arrays [addAgent] pushes to have one length. *)
Definition lockstep4 (c : RecastJSCrowd.t) : Prop :=
  length (RecastJSCrowd.transforms c) = length (RecastJSCrowd.agents c)
  /\ length (RecastJSCrowd._agentDestinationArmed c) = length (RecastJSCrowd.agents c)
  /\ length (RecastJSCrowd._agentDestination c) = length (RecastJSCrowd.agents c).

(** An armed slot is the first slot of its agent: [agentGoto] arms the slot
    [indexOf] finds. *)
Definition armed_first (c : RecastJSCrowd.t) : Prop :=
  forall (i j : nat) (a : Z),
    RecastJSCrowd.agents c !! i = Some a ->
    RecastJSCrowd._agentDestinationArmed c !! i = Some true ->
    RecastJSCrowd.agents c !! j = Some a ->
    (i <= j)%nat.

End Runs.

(** ** The sub-stepping rule and the arrival region, in the words of the
    specification *)

(** [floor(deltaTime / timeStep)], clamped down to [maxSubStepCount] when
    that is nonzero, and clamped up to at least 1.  The quotient is a
    number: the division is the platform's. *)
Definition iteration_count (timeStep deltaTime : Q) (maxSubStepCount : Z) : Z :=
  let k := Qfloor (Qdiv64 deltaTime timeStep) in
  let k := if (maxSubStepCount =? 0) then k else Z.min k maxSubStepCount in
  Z.max 1 k.

Definition Qsum (l : list Q) : Q := fold_right Qplus 0%Q l.



(** ** A small stand-in for the library

    Used to run the plugin and the crowd on concrete inputs.  Every navmesh
    records where it came from; generation succeeds when there is at least
    one index; a crowd agent jumps to its target at the first update. *)

Module Bench.

Inductive Navmesh :=
| Solo (positions indices : list Q)
| Tiled (positions indices : list Q)
| Imported (data : list Byte.byte).

(** An agent of the crowd: its index, its position and its target. *)
Record Body := mkBody { body_index : Z; body_at : Vector3; body_target : Vector3 }.

Definition nonempty {A : Type} (l : list A) : bool :=
  match l with [] => false | _ => true end.

Definition find_body (crowd : list Body) (index : Z) : option Body :=
  List.find (fun b => Z.eqb (body_index b) index) crowd.

Definition retarget (index : Z) (at_ : option Vector3) (target : Vector3)
    (b : Body) : Body :=
  if Z.eqb (body_index b) index
  then mkBody index (default (body_at b) at_) target
  else b.

Definition recast : Recast :=
  {| NavMesh := Navmesh;
     NavMeshQuery := option Navmesh;
     TileCache := list (Vector3 * Q);
     IObstacle := nat;
     NavPath := list Vector3;
     Crowd := list Body;
     CrowdAgent := Body;
     CrowdAgentParams := list Q;
     Epsilon := 1 # 1000;
     Epsilon_pos := eq_refl;
     fround := fun q => q;
     generateSoloNavMesh := fun positions indices =>
       if nonempty indices then (true, Some (Solo positions indices))
       else (false, None);
     generateTileCache := fun positions indices _ =>
       if nonempty indices then (true, Some (Tiled positions indices), Some [])
       else (false, None, None);
     importNavMesh := fun data => Some (Imported data);
     new_NavMeshQuery := fun navMesh => navMesh;
     query_computePath := fun _ start end_ => [start; end_];
     getPointCount := fun path => Z.of_nat (length path);
     getPoint := fun path pt => nth (Z.to_nat pt) path Vector3_Zero;
     tc_addCylinderObstacle := fun tc pos radius _ =>
       (tc ++ [(pos, radius)], Some (length tc));
     tc_addBoxObstacle := fun tc pos extent _ =>
       (tc ++ [(pos, x extent)], Some (length tc));
     tc_removeObstacle := fun tc obstacle => delete obstacle tc;
     crowd_addAgent := fun crowd pos _ =>
       let index := Z.of_nat (length crowd) in
       (crowd ++ [mkBody index pos pos], index);
     crowd_getAgent := find_body;
     crowd_removeAgent := fun crowd index =>
       filter (fun b => body_index b <> index) crowd;
     crowd_update := fun crowd _ =>
       map (fun b => mkBody (body_index b) (body_target b) (body_target b)) crowd;
     agent_position := fun _ b => body_at b;
     agent_requestMoveTarget := fun crowd b target =>
       map (retarget (body_index b) None target) crowd;
     agent_teleport := fun crowd b target =>
       map (retarget (body_index b) (Some target) target) crowd;
     mkAgentParams := fun a b c d e f g r => [a; b; c; d; e; f; g; r] |}.

Definition quad : Mesh :=
  mkMesh (Some [0; 0; 0; 10; 0; 0; 10; 0; 10; 0; 0; 10]%Q)
         (Some [0; 1; 2; 0; 2; 3]%Q).

Definition params : IAgentParameters :=
  mkIAgentParameters (1 # 2) 2 4 1 (1 # 2) 0 1 None.

Definition node : TransformNode := mkTransformNode "agent" Vector3_Zero.

(** A plugin and a crowd as their constructors leave them. *)
Definition plugin : @RecastNavigationJSPlugin.t recast :=
  RecastNavigationJSPlugin.new.

Definition crowd : @RecastJSCrowd.t recast :=
  @RecastJSCrowd.new recast [].

(** A crowd of one agent whose reach radius the application has set to 1. *)
Definition crowd1 : @RecastJSCrowd.t recast :=
  @crowd_calls recast crowd
    [AddAgent (mkVector3 3 0 3) params node; SetReachRadii [1%Q]].

(** The same crowd once its agent was sent to (5, 0, 5). *)
Definition walking : @RecastJSCrowd.t recast :=
  @crowd_calls recast crowd
    [AddAgent (mkVector3 3 0 3) params node; SetReachRadii [1%Q];
     AgentGoto 0 (mkVector3 5 0 5)].

(** A crowd of one agent, armed for the origin with reach radius 1, that
    the library keeps one unit above its destination. *)
Definition hovering : @RecastJSCrowd.t recast :=
  @RecastJSCrowd.mk recast
    [mkBody 0 (mkVector3 0 1 0) (mkVector3 0 1 0)]
    [node] [0] [1%Q] [true] [Vector3_Zero].

End Bench.

(** ** More of the plugin and of the crowd *)

Section More.
Context `{R : Recast}.

(** The setter of [timeFactor]: [Math.max(value, 0)]. *)
Definition set_timeFactor (p : RecastNavigationJSPlugin.t) (value : Q)
  : RecastNavigationJSPlugin.t :=
  RecastNavigationJSPlugin.mk
    (RecastNavigationJSPlugin.navMesh p) (RecastNavigationJSPlugin._navMeshQuery p)
    (RecastNavigationJSPlugin._maximumSubStepCount p)
    (RecastNavigationJSPlugin._timeStep p)
    (if Qlt_bool 0 value then value else 0%Q)
    (RecastNavigationJSPlugin._tempVec1 p) (RecastNavigationJSPlugin._tempVec2 p)
    (RecastNavigationJSPlugin._tileCache p) (RecastNavigationJSPlugin._worker p)
    (RecastNavigationJSPlugin._positions p) (RecastNavigationJSPlugin._indices p).

(** The getter of [timeFactor]. *)
Definition timeFactor (p : RecastNavigationJSPlugin.t) : Q :=
  RecastNavigationJSPlugin._timeFactor p.

(** The arrivals one call on a crowd notifies: only [update] notifies. *)
Definition crowd_call_notified (c : RecastJSCrowd.t) (call : CrowdCall)
  : list Reached :=
  match call with
  | Update plugin deltaTime =>
      RecastJSCrowd.updated_notified (RecastJSCrowd.update plugin c deltaTime)
  | _ => []
  end.

(** A run of calls on a crowd: the crowd it leaves and all the arrivals it
    notified, in order. *)
Fixpoint crowd_run (c : RecastJSCrowd.t) (calls : list CrowdCall)
  : RecastJSCrowd.t * list Reached :=
  match calls with
  | [] => (c, [])
  | call :: calls =>
      let '(c', later) := crowd_run (crowd_call c call) calls in
      (c', crowd_call_notified c call ++ later)
  end.

(** Whether a call is a method of the crowd (and not the application
    writing [reachRadii]). *)
Definition crowd_method (call : CrowdCall) : bool :=
  match call with
  | SetReachRadii _ => false
  | _ => true
  end.

End More.

(** ** The crowd's getters and updateAgentParameters *)

(** What these methods call on an agent of the library.  The parameter
    object of an agent is opaque here; [with_radius] and the like stand for
    the assignments to its fields. *)
Class RecastAgents `{R : Recast} := {
  agent_velocity : Crowd -> CrowdAgent -> Vector3;
  agent_nextTargetInPath : Crowd -> CrowdAgent -> Vector3;
  agent_state : Crowd -> CrowdAgent -> Q;
  agent_overOffMeshConnection : Crowd -> CrowdAgent -> bool;
  (** [agent.parameters()], [None] when it is [null] or [undefined] *)
  agent_parameters : Crowd -> CrowdAgent -> option CrowdAgentParams;
  agent_updateParameters : Crowd -> CrowdAgent -> CrowdAgentParams -> Crowd;
  with_radius : CrowdAgentParams -> Q -> CrowdAgentParams;
  with_height : CrowdAgentParams -> Q -> CrowdAgentParams;
  with_maxAcceleration : CrowdAgentParams -> Q -> CrowdAgentParams;
  with_maxSpeed : CrowdAgentParams -> Q -> CrowdAgentParams;
  with_collisionQueryRange : CrowdAgentParams -> Q -> CrowdAgentParams;
  with_pathOptimizationRange : CrowdAgentParams -> Q -> CrowdAgentParams;
  with_separationWeight : CrowdAgentParams -> Q -> CrowdAgentParams
}.

(** The parameter object [updateAgentParameters] receives: any field may be
    [undefined]. *)
Record AgentParametersUpdate := mkAgentParametersUpdate {
  new_radius : option Q;
  new_height : option Q;
  new_maxAcceleration : option Q;
  new_maxSpeed : option Q;
  new_collisionQueryRange : option Q;
  new_pathOptimizationRange : option Q;
  new_separationWeight : option Q;
  new_reachRadius : option Q
}.

(** [if (field !== undefined) { params.field = field; }] *)
Definition assign_field {P : Type} (assign : P -> Q -> P) (field : option Q)
    (params : P) : P :=
  match field with
  | Some v => assign params v
  | None => params
  end.

Section Getters.
Context `{A : RecastAgents}.

Definition getAgentVelocity (c : RecastJSCrowd.t) (index : Z) : Vector3 :=
  let agentVel :=
    match crowd_getAgent (RecastJSCrowd.recastCrowd c) index with
    | Some agent => agent_velocity (RecastJSCrowd.recastCrowd c) agent
    | None => mkVector3 0 0 0
    end in
  mkVector3 (x agentVel) (y agentVel) (z agentVel).

Definition getAgentNextTargetPath (c : RecastJSCrowd.t) (index : Z) : Vector3 :=
  let pathTargetPos :=
    match crowd_getAgent (RecastJSCrowd.recastCrowd c) index with
    | Some agent => agent_nextTargetInPath (RecastJSCrowd.recastCrowd c) agent
    | None => mkVector3 0 0 0
    end in
  mkVector3 (x pathTargetPos) (y pathTargetPos) (z pathTargetPos).

Definition getAgentState (c : RecastJSCrowd.t) (index : Z) : Q :=
  match crowd_getAgent (RecastJSCrowd.recastCrowd c) index with
  | Some agent => agent_state (RecastJSCrowd.recastCrowd c) agent
  | None => 0%Q (* invalid *)
  end.

Definition overOffmeshConnection (c : RecastJSCrowd.t) (index : Z) : bool :=
  match crowd_getAgent (RecastJSCrowd.recastCrowd c) index with
  | Some agent => agent_overOffMeshConnection (RecastJSCrowd.recastCrowd c) agent
  | None => false
  end.

Definition updateAgentParameters (c : RecastJSCrowd.t) (index : Z)
    (parameters : AgentParametersUpdate) : RecastJSCrowd.t :=
  match crowd_getAgent (RecastJSCrowd.recastCrowd c) index with
  | None => c
  | Some agent =>
      match agent_parameters (RecastJSCrowd.recastCrowd c) agent with
      | None => c
      | Some agentParams =>
          let agentParams := assign_field with_radius (new_radius parameters) agentParams in
          let agentParams := assign_field with_height (new_height parameters) agentParams in
          let agentParams :=
            assign_field with_maxAcceleration (new_maxAcceleration parameters)
              agentParams in
          let agentParams := assign_field with_maxSpeed (new_maxSpeed parameters) agentParams in
          let agentParams :=
            assign_field with_collisionQueryRange (new_collisionQueryRange parameters)
              agentParams in
          let agentParams :=
            assign_field with_pathOptimizationRange
              (new_pathOptimizationRange parameters) agentParams in
          let agentParams :=
            assign_field with_separationWeight (new_separationWeight parameters)
              agentParams in
          RecastJSCrowd.set_recastCrowd c
            (agent_updateParameters (RecastJSCrowd.recastCrowd c) agent agentParams)
      end
  end.

End Getters.

(** ** The default query extent and the scratch vectors

    [setDefaultQueryExtent] stores the plugin's scratch object [_tempVec1]
    itself in the query context, and [getDefaultQueryExtent] makes
    [_tempVec1] point to the object the query context holds: afterwards the
    two are one object, which every query overwrites with its position.
    This part of the plugin is therefore modelled over a store of vector
    objects, with [_tempVec1], [_tempVec2] and the query context's
    [defaultQueryHalfExtents] as addresses into it.
    [defaultQueryHalfExtents] is read and written as a plain property of
    the query object, the way the plugin's code uses it. *)

Class RecastQueries `{R : Recast} := {
  (** the half extents a new query context starts with *)
  initial_half_extents : Vector3;
  (** [query.findClosestPoint(position).point], which searches within the
      query context's default half extents *)
  findClosestPoint : NavMeshQuery -> Vector3 -> Vector3 -> Vector3
}.

Module Extent.
Section WithQueries.
Context `{RQ : RecastQueries}.

Record t := mk {
  store : list Vector3;
  _tempVec1 : nat;
  _tempVec2 : nat;
  (** the query context and the address of its [defaultQueryHalfExtents] *)
  _navMeshQuery : option (NavMeshQuery * nat);
  (** [bjsRECAST.Vec3], when the application has put one there *)
  bjsRECAST_Vec3 : option (Q -> Q -> Q -> Vector3)
}.

(** The object at an address. *)
Definition at_ (s : t) (address : nat) : Vector3 :=
  default Vector3_Zero (store s !! address).

(** [object.x = v.x; object.y = v.y; object.z = v.z] *)
Definition write (s : t) (address : nat) (v : Vector3) : t :=
  mk (<[address := mkVector3 (x v) (y v) (z v)]> (store s))
     (_tempVec1 s) (_tempVec2 s) (_navMeshQuery s) (bjsRECAST_Vec3 s).

(** The plugin as its constructor leaves it: two scratch objects, no query
    context, an empty [bjsRECAST]. *)
Definition new : t :=
  mk [mkVector3 0 0 0; mkVector3 0 0 0] 0 1 None None.

(** [this._navMeshQuery = new NavMeshQuery(navMesh)]: the new query context
    brings its own half extents object. *)
Definition install_query (s : t) (query : NavMeshQuery) : t :=
  mk (store s ++ [initial_half_extents]) (_tempVec1 s) (_tempVec2 s)
     (Some (query, length (store s))) (bjsRECAST_Vec3 s).

(** The default half extents of the query context, when there is one. *)
Definition half_extents (s : t) : option Vector3 :=
  match _navMeshQuery s with
  | Some (_, address) => Some (at_ s address)
  | None => None
  end.

(** [getClosestPoint]: [None] stands for the TypeError without a query
    context, thrown after the scratch object was written. *)
Definition getClosestPoint (s : t) (position : Vector3) : t * option Vector3 :=
  let s := write s (_tempVec1 s) position in
  match _navMeshQuery s with
  | None => (s, None)
  | Some (query, extents) =>
      let ret := findClosestPoint query (at_ s extents) (at_ s (_tempVec1 s)) in
      (s, Some (mkVector3 (x ret) (y ret) (z ret)))
  end.

Definition setDefaultQueryExtent (s : t) (extent : Vector3) : t * Outcome :=
  let s := write s (_tempVec1 s) extent in
  match _navMeshQuery s with
  | None => (s, Thrown "TypeError")
  | Some (query, _) =>
      (mk (store s) (_tempVec1 s) (_tempVec2 s) (Some (query, _tempVec1 s))
          (bjsRECAST_Vec3 s),
       Returned)
  end.

Definition getDefaultQueryExtent (s : t) : t * option Vector3 :=
  match _navMeshQuery s with
  | None => (s, None)
  | Some (query, extents) =>
      let s := mk (store s) extents (_tempVec2 s) (_navMeshQuery s)
                  (bjsRECAST_Vec3 s) in
      let v := at_ s (_tempVec1 s) in
      (s, Some (mkVector3 (x v) (y v) (z v)))
  end.

(** The crowd's [setDefaultQueryExtent]: [new bjsRECAST.Vec3(...)], then the
    plugin's method on the new vector. *)
Definition crowd_setDefaultQueryExtent (s : t) (extent : Vector3) : t * Outcome :=
  match bjsRECAST_Vec3 s with
  | None => (s, Thrown "TypeError")
  | Some Vec3 =>
      let ext := Vec3 (x extent) (y extent) (z extent) in
      setDefaultQueryExtent s ext
  end.

(** The crowd's [getDefaultQueryExtent]. *)
Definition crowd_getDefaultQueryExtent (s : t) : t * option Vector3 :=
  match getDefaultQueryExtent s with
  | (s, Some p) => (s, Some (mkVector3 (x p) (y p) (z p)))
  | (s, None) => (s, None)
  end.

(** The addresses the plugin holds point to objects of the store. *)
Definition valid (s : t) : Prop :=
  (_tempVec1 s < length (store s))%nat
  /\ (_tempVec2 s < length (store s))%nat
  /\ forall query extents,
       _navMeshQuery s = Some (query, extents) -> (extents < length (store s))%nat.

(** The scratch object and the query context's half extents are one
    object. *)
Definition aliased (s : t) : Prop :=
  exists query, _navMeshQuery s = Some (query, _tempVec1 s).

End WithQueries.
End Extent.

(** The stand-in library, completed. *)
Module BenchMore.

Definition agents : @RecastAgents Bench.recast :=
  @Build_RecastAgents Bench.recast
    (* agent_velocity *)
    (fun _ b =>
       mkVector3 (x (Bench.body_target b) - x (Bench.body_at b))
                 (y (Bench.body_target b) - y (Bench.body_at b))
                 (z (Bench.body_target b) - z (Bench.body_at b)))
    (* agent_nextTargetInPath *)
    (fun _ b => Bench.body_target b)
    (* agent_state *)
    (fun _ _ => 1%Q)
    (* agent_overOffMeshConnection *)
    (fun _ _ => false)
    (* agent_parameters *)
    (fun _ _ => Some [1; 2; 3; 4; 5; 6; 7; 1]%Q)
    (* agent_updateParameters *)
    (fun crowd _ _ => crowd)
    (* the assignments to the seven fields *)
    (fun ps v => <[0%nat := v]> ps)
    (fun ps v => <[1%nat := v]> ps)
    (fun ps v => <[2%nat := v]> ps)
    (fun ps v => <[3%nat := v]> ps)
    (fun ps v => <[4%nat := v]> ps)
    (fun ps v => <[5%nat := v]> ps)
    (fun ps v => <[6%nat := v]> ps).

(** The closest point of the stand-in: the position itself when it lies
    within the half extents of the origin, the origin otherwise. *)
Definition queries : @RecastQueries Bench.recast :=
  @Build_RecastQueries Bench.recast
    (mkVector3 1 1 1)
    (fun _ extents position =>
       if Qle_bool (x position) (x extents) && Qle_bool (z position) (z extents)
       then position else Vector3_Zero).

(** A plugin with a query context, as a build leaves it. *)
Definition built : @Extent.t Bench.recast :=
  @Extent.install_query Bench.recast queries (@Extent.new Bench.recast) None.

End BenchMore.

(** * Properties *)

(** ** Comparisons of numbers *)

Lemma Qlt_bool_iff (a b : Q) : Qlt_bool a b = true <-> (a < b)%Q.
Proof.
  unfold Qlt_bool. rewrite negb_true_iff.
  split.
  - intros H. apply Qnot_le_lt. intros Hle.
    apply Qle_bool_iff in Hle. congruence.
  - intros H. destruct (Qle_bool b a) eqn:E; [|reflexivity].
    apply Qle_bool_iff in E. exfalso. apply (Qlt_not_le _ _ H E).
Qed.

Lemma Qlt_bool_false (a b : Q) : Qlt_bool a b = false <-> (b <= a)%Q.
Proof.
  unfold Qlt_bool. rewrite negb_false_iff. apply Qle_bool_iff.
Qed.

Lemma Qle_bool_false (a b : Q) : Qle_bool a b = false <-> (b < a)%Q.
Proof.
  split.
  - intros H. apply Qnot_le_lt. intros Hle.
    apply Qle_bool_iff in Hle. congruence.
  - intros H. destruct (Qle_bool a b) eqn:E; [|reflexivity].
    apply Qle_bool_iff in E. exfalso. apply (Qlt_not_le _ _ H E).
Qed.

Lemma truthy_inject_Z (m : Q) (mz : Z) :
  (m == inject_Z mz)%Q -> truthy m = negb (mz =? 0).
Proof.
  intros H. unfold truthy. f_equal.
  destruct (Z.eqb_spec mz 0) as [->|Hne].
  - apply Qeq_bool_iff. exact H.
  - destruct (Qeq_bool m 0) eqn:E; [|reflexivity].
    apply Qeq_bool_iff in E. rewrite H in E.
    exfalso. apply Hne. unfold Qeq in E. simpl in E. lia.
Qed.

(** ** Doubles *)

Lemma pow2_pos (e : Z) : (0 < 2 ^ e)%Q.
Proof. apply Qpower_0_lt. reflexivity. Qed.

Lemma pow2_succ (e : Z) : (2 ^ (e + 1) == 2 * 2 ^ e)%Q.
Proof.
  rewrite Qpower_plus by discriminate. rewrite Qpower_1_r. ring.
Qed.

Lemma pow2_le (a b : Z) : a <= b -> (2 ^ a <= 2 ^ b)%Q.
Proof. intros H. apply Qpower_le_compat_l; [exact H|discriminate]. Qed.

Lemma pow2_inject (n : Z) : 0 <= n -> (inject_Z (2 ^ n) == 2 ^ n)%Q.
Proof. intros H. rewrite Zpower_Qpower by exact H. reflexivity. Qed.

(** [Qlog2] is the floor of the binary logarithm. *)
Lemma Qlog2_spec (a : Q) :
  (0 < a)%Q -> (2 ^ Qlog2 a <= a /\ a < 2 ^ (Qlog2 a + 1))%Q.
Proof.
  intros Ha. unfold Qlog2.
  destruct a as [n d]. cbn [Qnum Qden].
  assert (Hn : 0 < n). { unfold Qlt in Ha. simpl in Ha. lia. }
  set (ln := Z.log2 n). set (ld := Z.log2 (Z.pos d)).
  assert (Hln : 0 <= ln) by apply Z.log2_nonneg.
  assert (Hld : 0 <= ld) by apply Z.log2_nonneg.
  destruct (Z.log2_spec n Hn) as [Hn1 Hn2]. fold ln in Hn1, Hn2.
  destruct (Z.log2_spec (Z.pos d) ltac:(lia)) as [Hd1 Hd2]. fold ld in Hd1, Hd2.
  rewrite <- Z.add_1_r in Hn2, Hd2.
  (* bounds in Q *)
  assert (Heq : (n # d == inject_Z n / inject_Z (Z.pos d))%Q).
  { rewrite (Qmake_Qdiv n d). reflexivity. }
  assert (Hdpos : (0 < inject_Z (Z.pos d))%Q) by reflexivity.
  assert (Q1 : (2 ^ ln <= inject_Z n)%Q).
  { rewrite <- pow2_inject by exact Hln. rewrite <- Zle_Qle. exact Hn1. }
  assert (Q2 : (inject_Z n < 2 * 2 ^ ln)%Q).
  { rewrite <- pow2_succ. rewrite <- pow2_inject by lia. rewrite <- Zlt_Qlt. exact Hn2. }
  assert (Q3 : (2 ^ ld <= inject_Z (Z.pos d))%Q).
  { rewrite <- pow2_inject by exact Hld. rewrite <- Zle_Qle. exact Hd1. }
  assert (Q4 : (inject_Z (Z.pos d) < 2 * 2 ^ ld)%Q).
  { rewrite <- pow2_succ. rewrite <- pow2_inject by lia. rewrite <- Zlt_Qlt. exact Hd2. }
  assert (Hg : (2 ^ (ln - ld) * 2 ^ ld == 2 ^ ln)%Q).
  { rewrite <- Qpower_plus by discriminate. replace (ln - ld + ld) with ln by lia.
    reflexivity. }
  pose proof (pow2_pos ln) as Pln. pose proof (pow2_pos ld) as Pld.
  pose proof (pow2_pos (ln - ld)) as Pg.
  set (A := (n # d)%Q) in *.
  assert (HA : (A * inject_Z (Z.pos d) == inject_Z n)%Q).
  { rewrite Heq. field. intros H0. rewrite H0 in Hdpos. discriminate. }
  assert (HApos : (0 < A)%Q) by exact Ha.
  set (N := inject_Z n) in *. set (D := inject_Z (Z.pos d)) in *.
  set (PN := (2 ^ ln)%Q) in *. set (PD := (2 ^ ld)%Q) in *.
  set (G := (2 ^ (ln - ld))%Q) in *.
  assert (Hup : (A < 2 * G)%Q).
  { apply Qnot_le_lt. intros Hc. 
    assert ((2 * G) * PD <= A * D)%Q by nra. nra. }
  assert (Hlo : (G < 2 * A)%Q).
  { apply Qnot_le_lt. intros Hc.
    assert (2 * A * D <= G * (2 * PD))%Q. { nra. } nra. }
  destruct (Qle_bool G A) eqn:E.
  - apply Qle_bool_iff in E. split; [exact E|].
    rewrite pow2_succ. exact Hup.
  - assert (E' : (A < G)%Q).
    { apply Qnot_le_lt. intros Hc. apply Qle_bool_iff in Hc. congruence. }
    replace (ln - ld - 1 + 1) with (ln - ld) by lia. fold G.
    split; [|exact E'].
    assert (HG2 : (G == 2 * 2 ^ (ln - ld - 1))%Q).
    { unfold G. rewrite <- pow2_succ. replace (ln - ld - 1 + 1) with (ln - ld) by lia.
      reflexivity. }
    set (G1 := (2 ^ (ln - ld - 1))%Q) in *. nra.
Qed.

Lemma round_half_even_error (r : Q) :
  (r - (1 # 2) <= inject_Z (round_half_even r) <= r + (1 # 2))%Q.
Proof.
  unfold round_half_even.
  pose proof (Qfloor_le r) as Hlo. pose proof (Qlt_floor r) as Hhi.
  rewrite inject_Z_plus in Hhi. change (inject_Z 1) with 1%Q in Hhi.
  set (f := Qfloor r) in *.
  destruct (Qcompare_spec (r - inject_Z f) (1 # 2)) as [H|H|H].
  - destruct (Z.even f); rewrite ?inject_Z_plus; change (inject_Z 1) with 1%Q;
      split; lra.
  - split; lra.
  - rewrite inject_Z_plus. change (inject_Z 1) with 1%Q. split; lra.
Qed.

(** The rounding error is at most half a unit of the last place. *)
Lemma round64_error (q : Q) :
  (0 < q)%Q ->
  let e := Z.max (Qlog2 q - 52) (-1074) in
  (q - 2 ^ e * (1 # 2) <= round64 q <= q + 2 ^ e * (1 # 2))%Q.
Proof.
  intros Hq e. unfold round64.
  assert (H0 : Qeq_bool q 0 = false).
  { destruct (Qeq_bool q 0) eqn:E; [|reflexivity].
    apply Qeq_bool_iff in E. rewrite E in Hq. discriminate. }
  rewrite H0.
  assert (Habs : Qabs q = q).
  { destruct q as [[|n|n] d]; try discriminate. reflexivity. }
  rewrite Habs. fold e.
  assert (Hle : Qle_bool 0 q = true) by (apply Qle_bool_iff, Qlt_le_weak, Hq).
  rewrite Hle.
  pose proof (pow2_pos e) as He.
  pose proof (round_half_even_error (q / 2 ^ e)) as Hr.
  set (m := inject_Z (round_half_even (q / 2 ^ e))) in *.
  assert (Hq' : (q / 2 ^ e * 2 ^ e == q)%Q).
  { field. intros Hz. rewrite Hz in He. discriminate. }
  set (r := (q / 2 ^ e)%Q) in *. set (u := (2 ^ e)%Q) in *.
  split; nra.
Qed.

Lemma round64_error_normal (q : Q) :
  (2 ^ (-1022) <= q)%Q ->
  (q * (1 - 2 ^ (-53)) <= round64 q <= q * (1 + 2 ^ (-53)))%Q.
Proof.
  intros Hn.
  assert (Hq : (0 < q)%Q).
  { eapply Qlt_le_trans; [apply (pow2_pos (-1022))|exact Hn]. }
  pose proof (round64_error q Hq) as H. cbv zeta in H.
  destruct (Qlog2_spec q Hq) as [Hlo Hhi].
  set (g := Qlog2 q) in *.
  assert (Hg : -1022 <= g).
  { destruct (Z_le_gt_dec (-1022) g) as [|Hlt]; [assumption|].
    exfalso. pose proof (pow2_le (g + 1) (-1022) ltac:(lia)) as Hp.
    apply (Qlt_irrefl q). eapply Qlt_le_trans; [exact Hhi|].
    eapply Qle_trans; [exact Hp|exact Hn]. }
  rewrite Z.max_l in H by lia.
  assert (He : (2 ^ (g - 52) * (1 # 2) == 2 ^ g * 2 ^ (-53))%Q).
  { replace (g - 52) with (g + -52) by lia.
    rewrite Qpower_plus by discriminate.
    assert (H53 : (2 ^ (-52) * (1 # 2) == 2 ^ (-53))%Q) by reflexivity.
    rewrite <- H53. ring. }
  rewrite He in H.
  pose proof (pow2_pos (-53)) as P53.
  set (G := (2 ^ g)%Q) in *. set (u := (2 ^ (-53))%Q) in *.
  split; nra.
Qed.

Lemma round64_error_any (q : Q) :
  (0 < q)%Q ->
  (q * (1 - 2 ^ (-53)) - 2 ^ (-1075) <= round64 q
   <= q * (1 + 2 ^ (-53)) + 2 ^ (-1075))%Q.
Proof.
  intros Hq.
  pose proof (round64_error q Hq) as H. cbv zeta in H.
  destruct (Qlog2_spec q Hq) as [Hlo Hhi].
  set (g := Qlog2 q) in *.
  pose proof (pow2_pos (-53)) as P53. pose proof (pow2_pos (-1075)) as P1075.
  destruct (Z_le_gt_dec (-1074) (g - 52)) as [Hg|Hg].
  - rewrite Z.max_l in H by lia.
    assert (He : (2 ^ (g - 52) * (1 # 2) == 2 ^ g * 2 ^ (-53))%Q).
    { replace (g - 52) with (g + -52) by lia.
      rewrite Qpower_plus by discriminate.
      assert (H53 : (2 ^ (-52) * (1 # 2) == 2 ^ (-53))%Q) by reflexivity.
      rewrite <- H53. ring. }
    rewrite He in H.
    set (G := (2 ^ g)%Q) in *. set (u := (2 ^ (-53))%Q) in *.
    set (v := (2 ^ (-1075))%Q) in *.
    split; nra.
  - rewrite Z.max_r in H by lia.
    assert (He : (2 ^ (-1074) * (1 # 2) == 2 ^ (-1075))%Q) by reflexivity.
    rewrite He in H.
    set (u := (2 ^ (-53))%Q) in *. set (v := (2 ^ (-1075))%Q) in *.
    split; nra.
Qed.

Lemma Qlog2_comp (a a' : Q) : (0 < a)%Q -> (a == a')%Q -> Qlog2 a = Qlog2 a'.
Proof.
  intros Ha Heq.
  assert (Ha' : (0 < a')%Q) by (rewrite <- Heq; exact Ha).
  destruct (Qlog2_spec a Ha) as [L1 U1].
  destruct (Qlog2_spec a' Ha') as [L2 U2].
  remember (Qlog2 a) as g. remember (Qlog2 a') as g'.
  rewrite <- Heq in L2, U2.
  destruct (Z.lt_trichotomy g g') as [H|[H|H]]; [|exact H|].
  - exfalso. pose proof (pow2_le (g + 1) g' ltac:(lia)) as Hp.
    apply (Qlt_irrefl a). eapply Qlt_le_trans; [exact U1|].
    eapply Qle_trans; [exact Hp|exact L2].
  - exfalso. pose proof (pow2_le (g' + 1) g ltac:(lia)) as Hp.
    apply (Qlt_irrefl a). eapply Qlt_le_trans; [exact U2|].
    eapply Qle_trans; [exact Hp|exact L1].
Qed.

Lemma round_half_even_comp (r r' : Q) :
  (r == r')%Q -> round_half_even r = round_half_even r'.
Proof.
  intros H. unfold round_half_even.
  rewrite (Qfloor_comp _ _ H).
  assert (Hc : (r - inject_Z (Qfloor r') ?= 1 # 2)%Q
               = (r' - inject_Z (Qfloor r') ?= 1 # 2)%Q).
  { apply Qcompare_comp; [rewrite H; reflexivity|reflexivity]. }
  rewrite Hc. reflexivity.
Qed.

(** Equal numbers round to the same double, in the same representation. *)
Lemma round64_comp (q q' : Q) : (q == q')%Q -> round64 q = round64 q'.
Proof.
  intros H. unfold round64.
  assert (H0 : Qeq_bool q 0 = Qeq_bool q' 0).
  { destruct (Qeq_bool q' 0) eqn:E.
    - apply Qeq_bool_iff. apply Qeq_bool_iff in E. rewrite H. exact E.
    - destruct (Qeq_bool q 0) eqn:E'; [|reflexivity].
      apply Qeq_bool_iff in E'. rewrite H in E'.
      apply Qeq_bool_iff in E'. congruence. }
  rewrite <- H0. destruct (Qeq_bool q 0) eqn:E; [reflexivity|].
  assert (Hpos : (0 < Qabs q)%Q).
  { destruct q as [[|n|n] d]; [discriminate E|reflexivity|reflexivity]. }
  assert (Habs : (Qabs q == Qabs q')%Q) by (rewrite H; reflexivity).
  rewrite <- (Qlog2_comp _ _ Hpos Habs).
  set (e := Z.max (Qlog2 (Qabs q) - 52) (-1074)).
  assert (Hr : (Qabs q / 2 ^ e == Qabs q' / 2 ^ e)%Q) by (rewrite Habs; reflexivity).
  rewrite <- (round_half_even_comp _ _ Hr).
  assert (Hs : Qle_bool 0 q = Qle_bool 0 q').
  { destruct (Qle_bool 0 q') eqn:E'.
    - apply Qle_bool_iff. apply Qle_bool_iff in E'. rewrite H. exact E'.
    - destruct (Qle_bool 0 q) eqn:E''; [|reflexivity].
      apply Qle_bool_iff in E''. rewrite H in E''.
      apply Qle_bool_iff in E''. congruence. }
  rewrite Hs. reflexivity.
Qed.

Lemma Qdiv64_comp (a a' b b' : Q) :
  (a == a')%Q -> (b == b')%Q -> Qdiv64 a b = Qdiv64 a' b'.
Proof.
  intros Ha Hb. apply round64_comp. rewrite Ha, Hb. reflexivity.
Qed.

(** ** Sub-stepping *)

Lemma Qsum_replicate (n : nat) (s : Q) :
  (Qsum (replicate n s) == inject_Z (Z.of_nat n) * s)%Q.
Proof.
  induction n as [|n IH].
  - simpl. ring.
  - cbn [replicate Qsum fold_right]. fold (Qsum (replicate n s)).
    rewrite IH, Nat2Z.inj_succ. unfold Z.succ.
    rewrite inject_Z_plus. ring.
Qed.

Section SubSteps.
Context `{R : Recast}.

Lemma sub_steps_no_timeStep (timeStep maxStepCount deltaTime : Q) :
  (timeStep <= Epsilon)%Q ->
  RecastJSCrowd.sub_steps timeStep maxStepCount deltaTime = [deltaTime].
Proof.
  intros H. unfold RecastJSCrowd.sub_steps.
  apply Qle_bool_iff in H. rewrite H. reflexivity.
Qed.

Lemma iteration_count_pos (timeStep deltaTime : Q) (m : Z) :
  1 <= iteration_count timeStep deltaTime m.
Proof. unfold iteration_count. lia. Qed.

Lemma iteration_count_capped (timeStep deltaTime : Q) (m : Z) :
  1 <= m -> iteration_count timeStep deltaTime m <= m.
Proof.
  intros Hm. unfold iteration_count.
  destruct (Z.eqb_spec m 0); lia.
Qed.

(** The loop count and the step of the fixed-step branch: the count the
    code reaches is the clamped count, as a number. *)
Lemma sub_steps_fixed (timeStep maxStepCount deltaTime : Q) (m : Z) :
  (Epsilon < timeStep)%Q ->
  (maxStepCount == inject_Z m)%Q ->
  exists iterationCount : Q,
    (iterationCount == inject_Z (iteration_count timeStep deltaTime m))%Q
    /\ RecastJSCrowd.sub_steps timeStep maxStepCount deltaTime
       = replicate (Z.to_nat (iteration_count timeStep deltaTime m))
                   (Qdiv64 deltaTime iterationCount).
Proof.
  intros Hts Hm. unfold RecastJSCrowd.sub_steps.
  apply Qle_bool_false in Hts. rewrite Hts.
  rewrite (truthy_inject_Z _ _ Hm).
  set (f := Qfloor (Qdiv64 deltaTime timeStep)).
  set (ic1 := if negb (m =? 0) && Qlt_bool maxStepCount (inject_Z f)
              then maxStepCount else inject_Z f).
  assert (H1 : (ic1 == inject_Z (if m =? 0 then f else Z.min f m))%Q).
  { unfold ic1. destruct (Z.eqb_spec m 0) as [->|Hne]; simpl.
    - reflexivity.
    - destruct (Qlt_bool maxStepCount (inject_Z f)) eqn:E.
      + apply Qlt_bool_iff in E. rewrite Hm in E. rewrite <- Zlt_Qlt in E.
        rewrite Hm. rewrite Z.min_r by lia. reflexivity.
      + apply Qlt_bool_false in E. rewrite Hm in E. rewrite <- Zle_Qle in E.
        rewrite Z.min_l by lia. reflexivity. }
  set (k1 := if m =? 0 then f else Z.min f m) in *.
  set (ic2 := if Qlt_bool ic1 1 then 1%Q else ic1).
  assert (H2 : (ic2 == inject_Z (Z.max 1 k1))%Q).
  { unfold ic2. destruct (Qlt_bool ic1 1) eqn:E.
    - apply Qlt_bool_iff in E. rewrite H1 in E.
      change 1%Q with (inject_Z 1) in E. rewrite <- Zlt_Qlt in E.
      rewrite Z.max_l by lia. reflexivity.
    - apply Qlt_bool_false in E. rewrite H1 in E.
      change 1%Q with (inject_Z 1) in E. rewrite <- Zle_Qle in E.
      rewrite Z.max_r by lia. exact H1. }
  exists ic2. split.
  - exact H2.
  - unfold iteration_count. fold f. fold k1.
    rewrite (Qceiling_comp _ _ H2), Qceiling_Z. reflexivity.
Qed.

(** The sub-steps for a whole maximum: [k] steps of [deltaTime / k]. *)
Lemma sub_steps_whole (timeStep maxStepCount deltaTime : Q) (m : Z) :
  (Epsilon < timeStep)%Q ->
  (maxStepCount == inject_Z m)%Q ->
  let k := iteration_count timeStep deltaTime m in
  RecastJSCrowd.sub_steps timeStep maxStepCount deltaTime
  = replicate (Z.to_nat k) (Qdiv64 deltaTime (inject_Z k)).
Proof.
  intros Hts Hm k.
  destruct (sub_steps_fixed timeStep maxStepCount deltaTime m Hts Hm)
    as (ic & Hic & ->).
  rewrite (Qdiv64_comp deltaTime deltaTime ic (inject_Z k) (Qeq_refl _) Hic).
  reflexivity.
Qed.

(** In the fixed-step branch every sub-step is a normal double: the step
    is [deltaTime] itself or about a time step, and both are longer than
    [Epsilon]. *)
Lemma sub_step_normal (timeStep deltaTime : Q) (m : Z) :
  (2 ^ (-1000) <= Epsilon)%Q ->
  (Epsilon < timeStep)%Q ->
  (Epsilon < deltaTime)%Q ->
  (2 ^ (-1022)
   <= deltaTime / inject_Z (iteration_count timeStep deltaTime m))%Q.
Proof.
  intros Heps Hts Hdt.
  pose proof Epsilon_pos as Hpos.
  assert (Hw : (2 * 2 ^ (-1022) <= 2 ^ (-1000))%Q)
    by (apply Qle_bool_iff; vm_compute; reflexivity).
  pose proof (pow2_pos (-1022)) as Pw.
  pose proof (iteration_count_pos timeStep deltaTime m) as Hk.
  set (k := iteration_count timeStep deltaTime m) in *.
  assert (HK : (1 <= inject_Z k)%Q).
  { change 1%Q with (inject_Z 1). rewrite <- Zle_Qle. exact Hk. }
  apply Qle_shift_div_l; [lra|].
  destruct (Z.eq_dec k 1) as [H1|H1].
  - rewrite H1. change (inject_Z 1) with 1%Q.
    set (w := (2 ^ (-1022))%Q) in *. set (E0 := (2 ^ (-1000))%Q) in *. lra.
  - set (f := Qfloor (Qdiv64 deltaTime timeStep)).
    assert (Hkf : 2 <= k <= f).
    { unfold k, iteration_count in *. fold f in H1, Hk |- *.
      destruct (m =? 0); lia. }
    assert (HKf : (inject_Z k <= inject_Z f)%Q) by (rewrite <- Zle_Qle; lia).
    assert (HK2 : (2 <= inject_Z k)%Q).
    { change 2%Q with (inject_Z 2). rewrite <- Zle_Qle. lia. }
    pose proof (Qfloor_le (Qdiv64 deltaTime timeStep)) as Hf. fold f in Hf.
    unfold Qdiv64 in Hf.
    assert (Hx : (0 < deltaTime / timeStep)%Q).
    { apply Qlt_shift_div_l; lra. }
    pose proof (round64_error_any _ Hx) as [_ Hr].
    assert (Hxt : (deltaTime / timeStep * timeStep == deltaTime)%Q).
    { field. intros H0. rewrite H0 in Hts. lra. }
    assert (Hu : (2 ^ (-53) <= 1 # 2)%Q)
      by (apply Qle_bool_iff; vm_compute; reflexivity).
    assert (Hv : (2 ^ (-1075) <= 1 # 2)%Q)
      by (apply Qle_bool_iff; vm_compute; reflexivity).
    pose proof (pow2_pos (-53)) as Pu. pose proof (pow2_pos (-1075)) as Pv.
    set (x := (deltaTime / timeStep)%Q) in *.
    set (r := round64 x) in *.
    set (K := inject_Z k) in *. set (F := inject_Z f) in *.
    set (u := (2 ^ (-53))%Q) in *. set (v := (2 ^ (-1075))%Q) in *.
    set (w := (2 ^ (-1022))%Q) in *. set (E0 := (2 ^ (-1000))%Q) in *.
    assert (Hx1 : (1 <= x)%Q) by nra.
    assert (HKx : (K <= 2 * x)%Q) by nra.
    nra.
Qed.

(** The sub-steps of the crowd-stepping part add up to [deltaTime], up to
    the rounding of the step. *)
Lemma sub_steps_sum (timeStep maxStepCount deltaTime : Q) (m : Z) :
  (2 ^ (-1000) <= Epsilon)%Q ->
  (Epsilon < deltaTime)%Q ->
  (maxStepCount == inject_Z m)%Q ->
  (deltaTime * (1 - 2 ^ (-53))
   <= Qsum (RecastJSCrowd.sub_steps timeStep maxStepCount deltaTime)
   <= deltaTime * (1 + 2 ^ (-53)))%Q.
Proof.
  intros Heps Hdt Hm.
  pose proof Epsilon_pos as Hpos.
  pose proof (pow2_pos (-53)) as Pu.
  destruct (Qlt_le_dec Epsilon timeStep) as [Hts|Hts].
  - rewrite (sub_steps_whole _ _ deltaTime m Hts Hm). cbv zeta.
    pose proof (iteration_count_pos timeStep deltaTime m) as Hk.
    pose proof (sub_step_normal timeStep deltaTime m Heps Hts Hdt) as Hn.
    set (k := iteration_count timeStep deltaTime m) in *.
    rewrite Qsum_replicate, Z2Nat.id by lia.
    assert (HK : (1 <= inject_Z k)%Q).
    { change 1%Q with (inject_Z 1). rewrite <- Zle_Qle. exact Hk. }
    unfold Qdiv64.
    pose proof (round64_error_normal _ Hn) as Hr.
    assert (Hq : (inject_Z k * (deltaTime / inject_Z k) == deltaTime)%Q).
    { field. intros H0. rewrite H0 in HK. lra. }
    set (K := inject_Z k) in *. set (q := (deltaTime / K)%Q) in *.
    set (r := round64 q) in *. set (u := (2 ^ (-53))%Q) in *.
    split; nra.
  - rewrite (sub_steps_no_timeStep _ _ _ Hts). cbn [Qsum fold_right].
    set (u := (2 ^ (-53))%Q) in *. split; nra.
Qed.

(** What [update] passes to [recastCrowd.update], by the size of the tick. *)
Lemma update_calls_skipped (plugin : RecastNavigationJSPlugin.t)
    (c : RecastJSCrowd.t) (deltaTime : Q) :
  (deltaTime <= Epsilon)%Q ->
  RecastJSCrowd.updated_calls (RecastJSCrowd.update plugin c deltaTime) = [deltaTime]
  /\ RecastJSCrowd.updated_steps (RecastJSCrowd.update plugin c deltaTime) = [].
Proof.
  intros H. unfold RecastJSCrowd.update.
  apply Qle_bool_iff in H. rewrite H. split; reflexivity.
Qed.

Lemma update_calls_stepped (plugin : RecastNavigationJSPlugin.t)
    (c : RecastJSCrowd.t) (deltaTime : Q) :
  (Epsilon < deltaTime)%Q ->
  let steps :=
    RecastJSCrowd.sub_steps (RecastNavigationJSPlugin.getTimeStep plugin)
      (RecastNavigationJSPlugin.getMaximumSubStepCount plugin) deltaTime in
  RecastJSCrowd.updated_calls (RecastJSCrowd.update plugin c deltaTime)
    = deltaTime :: steps
  /\ RecastJSCrowd.updated_steps (RecastJSCrowd.update plugin c deltaTime) = steps.
Proof.
  intros H steps. unfold RecastJSCrowd.update.
  apply Qle_bool_false in H. rewrite H.
  fold steps.
  destruct (RecastJSCrowd.update_agents _ _ _ _) as [st outcome].
  split; reflexivity.
Qed.

(** Every call [update] makes of [recastCrowd.update] advances the crowd:
    the library's crowd after [update] is the one before it, updated by all
    the sizes of the call list in order. *)
Lemma update_crowd_calls (plugin : RecastNavigationJSPlugin.t)
    (c : RecastJSCrowd.t) (deltaTime : Q) :
  RecastJSCrowd.recastCrowd
    (RecastJSCrowd.updated_crowd (RecastJSCrowd.update plugin c deltaTime))
  = fold_left crowd_update
      (RecastJSCrowd.updated_calls (RecastJSCrowd.update plugin c deltaTime))
      (RecastJSCrowd.recastCrowd c).
Proof.
  unfold RecastJSCrowd.update.
  destruct (Qle_bool deltaTime Epsilon); [reflexivity|].
  destruct (RecastJSCrowd.update_agents _ _ _ _) as [st outcome].
  reflexivity.
Qed.

End SubSteps.

Section SubStepClaims.
Context `{R : Recast}.

(** C2.  With no fixed time step ([timeStep <= Epsilon]) and a tick longer
    than [Epsilon], [update] calls [recastCrowd.update] twice with the full
    [deltaTime]: once on its first line, under the comment "update
    obstacles", and once in the crowd-stepping part, which on its own makes
    one call.  The crowd is advanced by two updates of size [deltaTime], not
    by exactly one. *)
Theorem update_no_timeStep_calls (plugin : RecastNavigationJSPlugin.t)
    (c : RecastJSCrowd.t) (deltaTime : Q) :
  (Epsilon < deltaTime)%Q ->
  (RecastNavigationJSPlugin.getTimeStep plugin <= Epsilon)%Q ->
  RecastJSCrowd.updated_calls (RecastJSCrowd.update plugin c deltaTime)
    = [deltaTime; deltaTime]
  /\ RecastJSCrowd.updated_steps (RecastJSCrowd.update plugin c deltaTime)
    = [deltaTime]
  /\ RecastJSCrowd.recastCrowd
       (RecastJSCrowd.updated_crowd (RecastJSCrowd.update plugin c deltaTime))
     = crowd_update (crowd_update (RecastJSCrowd.recastCrowd c) deltaTime) deltaTime.
Proof.
  intros Hdt Hts.
  destruct (update_calls_stepped plugin c deltaTime Hdt) as [Hcalls Hsteps].
  rewrite Hcalls, Hsteps, (sub_steps_no_timeStep _ _ _ Hts).
  repeat split.
  unfold RecastJSCrowd.update.
  apply Qle_bool_false in Hdt. rewrite Hdt.
  rewrite (sub_steps_no_timeStep _ _ _ Hts).
  destruct (RecastJSCrowd.update_agents _ _ _ _) as [st outcome].
  reflexivity.
Qed.

(** C3.  With a fixed time step ([timeStep > Epsilon]), a tick longer than
    [Epsilon], a whole number as maximum sub-step count and a quotient
    [deltaTime / timeStep] in the range of the doubles, [update] calls
    [recastCrowd.update] [k + 1] times, where [k] is
    [floor(deltaTime / timeStep)] clamped down to the maximum when that is
    nonzero and clamped up to at least 1: once with the whole [deltaTime],
    on the line commented "update obstacles", and then [k] times with
    [deltaTime / k], the tick spread evenly over the sub-steps.  The crowd
    is advanced by all [k + 1] updates, not by the [k] sub-steps alone. *)
Theorem update_sub_steps_even (plugin : RecastNavigationJSPlugin.t)
    (c : RecastJSCrowd.t) (deltaTime : Q) (maxSubStepCount : Z) :
  (Epsilon < deltaTime)%Q ->
  (Epsilon < RecastNavigationJSPlugin.getTimeStep plugin)%Q ->
  (RecastNavigationJSPlugin.getMaximumSubStepCount plugin
   == inject_Z maxSubStepCount)%Q ->
  (deltaTime / RecastNavigationJSPlugin.getTimeStep plugin <= max_value)%Q ->
  let k := iteration_count (RecastNavigationJSPlugin.getTimeStep plugin)
             deltaTime maxSubStepCount in
  let step := Qdiv64 deltaTime (inject_Z k) in
  let u := RecastJSCrowd.update plugin c deltaTime in
  1 <= k
  /\ (1 <= maxSubStepCount -> k <= maxSubStepCount)
  /\ RecastJSCrowd.updated_steps u = replicate (Z.to_nat k) step
  /\ RecastJSCrowd.updated_calls u = deltaTime :: replicate (Z.to_nat k) step
  /\ length (RecastJSCrowd.updated_calls u) = S (Z.to_nat k)
  /\ RecastJSCrowd.recastCrowd (RecastJSCrowd.updated_crowd u)
     = fold_left crowd_update (replicate (Z.to_nat k) step)
         (crowd_update (RecastJSCrowd.recastCrowd c) deltaTime).
Proof.
  intros Hdt Hts Hm _ k step u.
  destruct (update_calls_stepped plugin c deltaTime Hdt) as [Hcalls Hsteps].
  pose proof (update_crowd_calls plugin c deltaTime) as Hcrowd.
  rewrite (sub_steps_whole _ _ deltaTime maxSubStepCount Hts Hm) in Hcalls, Hsteps.
  fold k step in Hcalls, Hsteps. fold u in Hcalls, Hsteps, Hcrowd.
  split; [apply iteration_count_pos|].
  split; [apply iteration_count_capped|].
  split; [exact Hsteps|]. split; [exact Hcalls|].
  split.
  - rewrite Hcalls. cbn [length]. rewrite length_replicate. reflexivity.
  - rewrite Hcrowd, Hcalls. reflexivity.
Qed.

(** C4.  In every configuration with a whole maximum sub-step count (those
    of the claim among them), with [Epsilon] in the range of the normal
    doubles and a quotient [deltaTime / timeStep] in the range of the
    doubles: on a tick of at most [Epsilon] the one size [update] feeds the
    crowd is [deltaTime]; on a longer tick the sizes of the sub-steps add
    up to [deltaTime] up to the rounding of the step, but [update] has fed
    the crowd the whole [deltaTime] before them, on the line commented
    "update obstacles": the sizes by which the crowd is advanced add up to
    twice [deltaTime], up to that rounding, and never to [deltaTime]. *)
Theorem update_steps_sum (plugin : RecastNavigationJSPlugin.t)
    (c : RecastJSCrowd.t) (deltaTime : Q) (maxSubStepCount : Z) :
  (2 ^ (-1000) <= Epsilon)%Q ->
  (RecastNavigationJSPlugin.getMaximumSubStepCount plugin
   == inject_Z maxSubStepCount)%Q ->
  (deltaTime / RecastNavigationJSPlugin.getTimeStep plugin <= max_value)%Q ->
  let u := RecastJSCrowd.update plugin c deltaTime in
  RecastJSCrowd.recastCrowd (RecastJSCrowd.updated_crowd u)
  = fold_left crowd_update (RecastJSCrowd.updated_calls u)
      (RecastJSCrowd.recastCrowd c)
  /\ ((deltaTime <= Epsilon)%Q ->
      RecastJSCrowd.updated_calls u = [deltaTime]
      /\ (Qsum (RecastJSCrowd.updated_calls u) == deltaTime)%Q)
  /\ ((Epsilon < deltaTime)%Q ->
      RecastJSCrowd.updated_calls u = deltaTime :: RecastJSCrowd.updated_steps u
      /\ (deltaTime * (1 - 2 ^ (-53))
          <= Qsum (RecastJSCrowd.updated_steps u)
          <= deltaTime * (1 + 2 ^ (-53)))%Q
      /\ (deltaTime * (2 - 2 ^ (-53))
          <= Qsum (RecastJSCrowd.updated_calls u)
          <= deltaTime * (2 + 2 ^ (-53)))%Q
      /\ ~ (Qsum (RecastJSCrowd.updated_calls u) == deltaTime)%Q).
Proof.
  intros Heps Hm _ u.
  split; [apply update_crowd_calls|]. split.
  - intros Hdt.
    destruct (update_calls_skipped plugin c deltaTime Hdt) as [Hcalls _].
    fold u in Hcalls. rewrite Hcalls. split; [reflexivity|].
    cbn [Qsum fold_right]. ring.
  - intros Hdt.
    destruct (update_calls_stepped plugin c deltaTime Hdt) as [Hcalls Hsteps].
    fold u in Hcalls, Hsteps. rewrite Hcalls, Hsteps.
    pose proof (sub_steps_sum (RecastNavigationJSPlugin.getTimeStep plugin) _
                  deltaTime maxSubStepCount Heps Hdt Hm) as Hsum.
    set (steps := RecastJSCrowd.sub_steps _ _ deltaTime) in *.
    split; [reflexivity|]. split; [exact Hsum|].
    cbn [Qsum fold_right]. fold (Qsum steps).
    pose proof Epsilon_pos as Hpos.
    assert (Hu : (2 ^ (-53) <= 1 # 2)%Q)
      by (apply Qle_bool_iff; vm_compute; reflexivity).
    pose proof (pow2_pos (-53)) as Pu.
    set (S := Qsum steps) in *. set (v := (2 ^ (-53))%Q) in *.
    split; [split; nra|].
    intros Heq. nra.
Qed.

End SubStepClaims.

Lemma update_no_timeStep_calls_witness :
  RecastJSCrowd.updated_calls
    (RecastJSCrowd.update (R := Bench.recast)
       (RecastNavigationJSPlugin.setTimeStep Bench.plugin 0)
       Bench.crowd (1 # 2))
  = [1 # 2; 1 # 2]%Q.
Proof.
  apply (update_no_timeStep_calls (R := Bench.recast)
           (RecastNavigationJSPlugin.setTimeStep Bench.plugin 0)
           Bench.crowd (1 # 2)).
  - reflexivity.
  - discriminate.
Defined.

Lemma update_sub_steps_even_witness :
  let k := iteration_count (RecastNavigationJSPlugin.getTimeStep Bench.plugin)
             (1 # 2) 10 in
  RecastJSCrowd.updated_calls
    (RecastJSCrowd.update (R := Bench.recast) Bench.plugin Bench.crowd (1 # 2))
  = (1 # 2)%Q :: replicate (Z.to_nat k) (Qdiv64 (1 # 2) (inject_Z k)).
Proof.
  destruct (update_sub_steps_even (R := Bench.recast) Bench.plugin
              Bench.crowd (1 # 2) 10) as (_ & _ & _ & H & _).
  - reflexivity.
  - vm_compute. reflexivity.
  - reflexivity.
  - apply Qle_bool_iff. vm_compute. reflexivity.
  - exact H.
Defined.

Lemma update_steps_sum_witness :
  ~ (Qsum
       (RecastJSCrowd.updated_calls
          (RecastJSCrowd.update (R := Bench.recast) Bench.plugin Bench.crowd (1 # 2)))
     == 1 # 2)%Q.
Proof.
  destruct (update_steps_sum (R := Bench.recast) Bench.plugin Bench.crowd
              (1 # 2) 10) as (_ & _ & H).
  - apply Qle_bool_iff. vm_compute. reflexivity.
  - reflexivity.
  - apply Qle_bool_iff. vm_compute. reflexivity.
  - destruct (H eq_refl) as (_ & _ & _ & Hne). exact Hne.
Defined.

(** The default settings (time step 1/60, at most 10 sub-steps) on a tick
    of half a second: the crowd is updated eleven times, by 0.5 and then ten
    times by the double 0.05. *)
Example update_default_half_second :
  RecastJSCrowd.updated_calls
    (RecastJSCrowd.update (R := Bench.recast) Bench.plugin Bench.crowd (1 # 2))
  = (1 # 2)%Q :: replicate 10 (Qdiv64 (1 # 2) 10)
  /\ (Qdiv64 (1 # 2) 10 == 3602879701896397 # 72057594037927936)%Q.
Proof. vm_compute. split; reflexivity. Qed.

(** ** The plugin: building, paths, tile cache *)

Section PluginClaims.
Context `{R : Recast}.

(** C7.  [computePathSmooth] returns the same sequence of points as
    [computePath] for every pair of points (and leaves the plugin in the
    same state): both ask the query context for the same path. *)
Theorem computePathSmooth_computePath (p : RecastNavigationJSPlugin.t)
    (start end_ : Vector3) :
  RecastNavigationJSPlugin.computePathSmooth p start end_
  = RecastNavigationJSPlugin.computePath p start end_.
Proof.
  unfold RecastNavigationJSPlugin.computePathSmooth,
    RecastNavigationJSPlugin.computePath.
  destruct (RecastNavigationJSPlugin._navMeshQuery _); reflexivity.
Qed.

(** C8.  On the blocking path (no worker, or no completion callback),
    [createNavMesh] throws exactly when the array of meshes is empty or the
    generation on the first mesh's buffers reports failure; when it throws,
    the navmesh and the query context are the ones held before; when it
    returns, the generated navmesh and a new query context on it are
    installed. *)
Theorem createNavMesh_blocking (p : RecastNavigationJSPlugin.t)
    (meshes : list Mesh) (completion : bool) :
  defined (RecastNavigationJSPlugin._worker p) && completion = false ->
  let r := RecastNavigationJSPlugin.createNavMesh p meshes completion in
  let generated (m : Mesh) :=
    generateSoloNavMesh (map fround (default [] (getVerticesData m)))
                        (map fround (default [] (getIndices m))) in
  (RecastNavigationJSPlugin.created_outcome r <> Returned
   <-> meshes = [] \/ exists m rest, meshes = m :: rest /\ fst (generated m) = false)
  /\ (RecastNavigationJSPlugin.created_outcome r <> Returned ->
      RecastNavigationJSPlugin.navMesh (RecastNavigationJSPlugin.created_plugin r)
      = RecastNavigationJSPlugin.navMesh p
      /\ RecastNavigationJSPlugin._navMeshQuery (RecastNavigationJSPlugin.created_plugin r)
         = RecastNavigationJSPlugin._navMeshQuery p)
  /\ (RecastNavigationJSPlugin.created_outcome r = Returned ->
      exists m rest, meshes = m :: rest
      /\ RecastNavigationJSPlugin.navMesh (RecastNavigationJSPlugin.created_plugin r)
         = snd (generated m)
      /\ RecastNavigationJSPlugin._navMeshQuery (RecastNavigationJSPlugin.created_plugin r)
         = Some (new_NavMeshQuery (snd (generated m)))).
Proof.
  intros Hblocking r generated. subst r.
  unfold RecastNavigationJSPlugin.createNavMesh.
  destruct meshes as [|m rest].
  - cbn. split; [|split].
    + split; [intros _; left; reflexivity | intros _; discriminate].
    + intros _. split; reflexivity.
    + discriminate.
  - cbn [RecastNavigationJSPlugin._worker RecastNavigationJSPlugin.set_indices
         RecastNavigationJSPlugin.set_positions].
    rewrite Hblocking. fold (generated m).
    destruct (generated m) as [success navMesh] eqn:E.
    destruct success; cbn.
    + split; [|split].
      * split; [intros H; exfalso; apply H; reflexivity|].
        intros [H|(m' & rest' & H & Hf)]; [discriminate|].
        injection H as <- <-. rewrite E in Hf. discriminate.
      * intros H. exfalso. apply H. reflexivity.
      * intros _. exists m, rest. rewrite E. repeat split.
    + split; [|split].
      * split; [|intros _; discriminate].
        intros _. right. exists m, rest. rewrite E. split; reflexivity.
      * intros _. split; reflexivity.
      * discriminate.
Qed.

(** C10.  For a non-empty array of meshes, everything [createNavMesh] does
    (the buffers it keeps, the message it posts to the worker, the navmesh
    it generates, whether it throws) depends on the first mesh only: two
    arrays with the same first mesh give the same result. *)
Theorem createNavMesh_first_mesh (p : RecastNavigationJSPlugin.t)
    (mesh0 : Mesh) (others others' : list Mesh) (completion : bool) :
  RecastNavigationJSPlugin.createNavMesh p (mesh0 :: others) completion
  = RecastNavigationJSPlugin.createNavMesh p (mesh0 :: others') completion.
Proof. reflexivity. Qed.

(** The buffers handed to the generation, or posted to the worker, are
    those of the first mesh; the plugin keeps them on the blocking path. *)
Lemma createNavMesh_buffers (p : RecastNavigationJSPlugin.t)
    (mesh0 : Mesh) (others : list Mesh) (completion : bool) :
  let r := RecastNavigationJSPlugin.createNavMesh p (mesh0 :: others) completion in
  let positions := map fround (default [] (getVerticesData mesh0)) in
  let indices := map fround (default [] (getIndices mesh0)) in
  (defined (RecastNavigationJSPlugin._worker p) && completion = false ->
   RecastNavigationJSPlugin._positions (RecastNavigationJSPlugin.created_plugin r)
   = Attached positions
   /\ RecastNavigationJSPlugin._indices (RecastNavigationJSPlugin.created_plugin r)
      = Attached indices
   /\ RecastNavigationJSPlugin.created_posted r = None)
  /\ (defined (RecastNavigationJSPlugin._worker p) && completion = true ->
      RecastNavigationJSPlugin.created_posted r
      = Some (RecastNavigationJSPlugin.mkWorkerMessage positions indices
                (5 # 100) (2 # 10))).
Proof.
  intros r positions indices. subst r.
  unfold RecastNavigationJSPlugin.createNavMesh.
  cbn [RecastNavigationJSPlugin._worker RecastNavigationJSPlugin.set_indices
       RecastNavigationJSPlugin.set_positions].
  fold positions. fold indices.
  destruct (defined (RecastNavigationJSPlugin._worker p) && completion).
  - cbn. split; [discriminate|reflexivity].
  - destruct (generateSoloNavMesh positions indices) as [[] navMesh]; cbn;
      split; try discriminate; repeat split.
Qed.

End PluginClaims.

Lemma createNavMesh_blocking_witness :
  defined (RecastNavigationJSPlugin._worker Bench.plugin) && false = false
  /\ RecastNavigationJSPlugin.navMesh
       (RecastNavigationJSPlugin.created_plugin
          (RecastNavigationJSPlugin.createNavMesh Bench.plugin [] false))
     = RecastNavigationJSPlugin.navMesh Bench.plugin.
Proof.
  split; [reflexivity|].
  destruct (createNavMesh_blocking (R := Bench.recast) Bench.plugin [] false)
    as (_ & H & _).
  - reflexivity.
  - apply H. discriminate.
Defined.

(** ** The tile cache *)

Section TileCacheClaims.
Context `{R : Recast}.
















End TileCacheClaims.


(** ** Arrays of the crowd *)

Lemma indexOf_from_spec (l : list Z) (x i : Z) :
  (indexOf_from l x i = -1 /\ forall j, l !! j <> Some x)
  \/ (exists n : nat,
        indexOf_from l x i = i + Z.of_nat n
        /\ l !! n = Some x
        /\ forall j, l !! j = Some x -> (n <= j)%nat).
Proof.
  revert i. induction l as [|y l IH]; intros i; cbn [indexOf_from].
  - left. split; [reflexivity|]. intros j. rewrite lookup_nil. discriminate.
  - destruct (Z.eqb_spec y x) as [->|Hne].
    + right. exists O. split; [lia|]. split; [reflexivity|]. intros; lia.
    + destruct (IH (i + 1)) as [[E Hnot]|(n & E & Hn & Hfirst)].
      * left. split; [exact E|]. intros [|j]; cbn; [congruence|apply Hnot].
      * right. exists (S n). split; [lia|]. split; [exact Hn|].
        intros [|j]; cbn; [congruence|]. intros Hj. apply Hfirst in Hj. lia.
Qed.

(** [indexOf] finds the first slot of [x], or answers -1 when there is none. *)
Lemma indexOf_spec (l : list Z) (x : Z) :
  (indexOf l x = -1 /\ forall j, l !! j <> Some x)
  \/ (0 <= indexOf l x
      /\ l !! Z.to_nat (indexOf l x) = Some x
      /\ forall j, l !! j = Some x -> (Z.to_nat (indexOf l x) <= j)%nat).
Proof.
  unfold indexOf.
  destruct (indexOf_from_spec l x 0) as [H|(n & E & Hn & Hfirst)]; [left; exact H|].
  rewrite Z.add_0_l in E. right. rewrite E, Nat2Z.id.
  split; [lia|]. split; assumption.
Qed.

Lemma length_delete_same {A B : Type} (l : list A) (l' : list B) (i : nat) :
  length l = length l' -> length (delete i l) = length (delete i l').
Proof.
  revert l' i. induction l as [|a l IH]; intros [|b l'] i H;
    try discriminate; [reflexivity|].
  destruct i as [|i]; cbn in *; [lia|]. f_equal. apply IH. lia.
Qed.

Lemma length_array_set (flags : list bool) (i : nat) (v : bool) :
  (i < length flags)%nat -> length (array_set flags i v) = length flags.
Proof.
  intros H. unfold array_set.
  apply Nat.ltb_lt in H. rewrite H. apply length_insert.
Qed.

(** A flag that reads true after [flags[i] = v] at another slot read true
    before. *)
Lemma array_set_lookup_ne (flags : list bool) (i j : nat) (v : bool) :
  i <> j ->
  array_set flags i v !! j = Some true -> flags !! j = Some true.
Proof.
  intros Hne. unfold array_set.
  destruct (Nat.ltb_spec i (length flags)) as [Hlt|Hge].
  - rewrite list_lookup_insert_ne by exact Hne. trivial.
  - destruct (Nat.lt_ge_cases j (length flags)) as [Hj|Hj].
    + rewrite lookup_app_l by exact Hj. trivial.
    + rewrite lookup_app_r by exact Hj.
      destruct (Nat.lt_ge_cases (j - length flags) (i - length flags)) as [Hk|Hk].
      * rewrite lookup_app_l by (rewrite length_replicate; exact Hk).
        intros H. apply lookup_replicate in H as [H _]. discriminate.
      * rewrite lookup_app_r by (rewrite length_replicate; exact Hk).
        rewrite length_replicate.
        destruct (j - length flags - (i - length flags))%nat as [|k] eqn:E;
          [lia|].
        cbn. discriminate.
Qed.

Section Lockstep.
Context `{R : Recast}.

(** [addAgent] appends one slot to four of the arrays and none to
    [reachRadii]. *)
Lemma addAgent_lengths (c : RecastJSCrowd.t) (pos : Vector3)
    (parameters : IAgentParameters) (transform : TransformNode) :
  let c' := fst (RecastJSCrowd.addAgent c pos parameters transform) in
  length (RecastJSCrowd.transforms c') = S (length (RecastJSCrowd.transforms c))
  /\ length (RecastJSCrowd.agents c') = S (length (RecastJSCrowd.agents c))
  /\ length (RecastJSCrowd._agentDestinationArmed c')
     = S (length (RecastJSCrowd._agentDestinationArmed c))
  /\ length (RecastJSCrowd._agentDestination c')
     = S (length (RecastJSCrowd._agentDestination c))
  /\ RecastJSCrowd.reachRadii c' = RecastJSCrowd.reachRadii c.
Proof.
  intros c'. subst c'. unfold RecastJSCrowd.addAgent.
  destruct (crowd_addAgent _ _ _) as [crowd agent]. cbn.
  rewrite !length_app. cbn. repeat split; lia.
Qed.

Lemma addAgent_lockstep4 (c : RecastJSCrowd.t) (pos : Vector3)
    (parameters : IAgentParameters) (transform : TransformNode) :
  lockstep4 c ->
  lockstep4 (fst (RecastJSCrowd.addAgent c pos parameters transform)).
Proof.
  intros (Ht & Ha & Hd).
  destruct (addAgent_lengths c pos parameters transform)
    as (Ht' & Hg' & Ha' & Hd' & _).
  unfold lockstep4. rewrite Ht', Hg', Ha', Hd'. repeat split; lia.
Qed.

(** [removeAgent] takes the same slot out of every array, or none. *)
Lemma removeAgent_arrays (c : RecastJSCrowd.t) (index : Z) :
  let c' := RecastJSCrowd.removeAgent c index in
  (exists item : nat,
     RecastJSCrowd.agents c !! item = Some index
     /\ RecastJSCrowd.transforms c' = delete item (RecastJSCrowd.transforms c)
     /\ RecastJSCrowd.agents c' = delete item (RecastJSCrowd.agents c)
     /\ RecastJSCrowd.reachRadii c' = delete item (RecastJSCrowd.reachRadii c)
     /\ RecastJSCrowd._agentDestinationArmed c'
        = delete item (RecastJSCrowd._agentDestinationArmed c)
     /\ RecastJSCrowd._agentDestination c'
        = delete item (RecastJSCrowd._agentDestination c))
  \/ (RecastJSCrowd.transforms c' = RecastJSCrowd.transforms c
      /\ RecastJSCrowd.agents c' = RecastJSCrowd.agents c
      /\ RecastJSCrowd.reachRadii c' = RecastJSCrowd.reachRadii c
      /\ RecastJSCrowd._agentDestinationArmed c'
         = RecastJSCrowd._agentDestinationArmed c
      /\ RecastJSCrowd._agentDestination c' = RecastJSCrowd._agentDestination c).
Proof.
  intros c'. subst c'.
  unfold RecastJSCrowd.removeAgent, RecastJSCrowd.set_recastCrowd.
  cbn [RecastJSCrowd.agents RecastJSCrowd.transforms RecastJSCrowd.reachRadii
       RecastJSCrowd._agentDestinationArmed RecastJSCrowd._agentDestination
       RecastJSCrowd.recastCrowd].
  destruct (indexOf_spec (RecastJSCrowd.agents c) index)
    as [[E _]|(Hpos & Hat & _)].
  - rewrite E. right. repeat split.
  - destruct (Z.ltb_spec (-1) (indexOf (RecastJSCrowd.agents c) index)); [|lia].
    left. exists (Z.to_nat (indexOf (RecastJSCrowd.agents c) index)).
    repeat split. exact Hat.
Qed.

Lemma removeAgent_lockstep (c : RecastJSCrowd.t) (index : Z) :
  lockstep c -> lockstep (RecastJSCrowd.removeAgent c index).
Proof.
  intros (Ht & Hr & Ha & Hd). unfold lockstep.
  destruct (removeAgent_arrays c index)
    as [(item & _ & Et & Eg & Er & Ea & Ed)|(Et & Eg & Er & Ea & Ed)];
    rewrite Et, Eg, Er, Ea, Ed.
  - repeat split; apply length_delete_same; assumption.
  - repeat split; assumption.
Qed.

Lemma removeAgent_lockstep4 (c : RecastJSCrowd.t) (index : Z) :
  lockstep4 c -> lockstep4 (RecastJSCrowd.removeAgent c index).
Proof.
  intros (Ht & Ha & Hd). unfold lockstep4.
  destruct (removeAgent_arrays c index)
    as [(item & _ & Et & Eg & _ & Ea & Ed)|(Et & Eg & _ & Ea & Ed)];
    rewrite Et, Eg, Ea, Ed.
  - repeat split; apply length_delete_same; assumption.
  - repeat split; assumption.
Qed.

(** C1.  From a crowd whose five arrays have one length, [addAgent] appends
    a slot to [transforms], [agents], the armed flags and the destinations
    and leaves [reachRadii] as it was (its [push] is commented out): the
    arrays are no longer of one length.  [removeAgent] keeps them in step
    (lemma [removeAgent_lockstep]). *)
Theorem addAgent_breaks_lockstep (c : RecastJSCrowd.t) (pos : Vector3)
    (parameters : IAgentParameters) (transform : TransformNode) :
  lockstep c ->
  let c' := fst (RecastJSCrowd.addAgent c pos parameters transform) in
  length (RecastJSCrowd.agents c') = S (length (RecastJSCrowd.agents c))
  /\ length (RecastJSCrowd.reachRadii c') = length (RecastJSCrowd.agents c)
  /\ ~ lockstep c'.
Proof.
  intros (Ht & Hr & Ha & Hd) c'.
  destruct (addAgent_lengths c pos parameters transform)
    as (Ht' & Hg' & Ha' & Hd' & Hr').
  fold c' in Ht', Hg', Ha', Hd', Hr'.
  split; [exact Hg'|]. split; [rewrite Hr'; exact Hr|].
  intros (_ & Hbad & _). rewrite Hr', Hg' in Hbad. lia.
Qed.

End Lockstep.

Lemma addAgent_breaks_lockstep_witness :
  lockstep Bench.crowd
  /\ ~ lockstep (fst (RecastJSCrowd.addAgent Bench.crowd Vector3_Zero
                       Bench.params Bench.node)).
Proof.
  assert (H : lockstep Bench.crowd) by (repeat split).
  split; [exact H|].
  apply (addAgent_breaks_lockstep (R := Bench.recast) Bench.crowd Vector3_Zero
           Bench.params Bench.node H).
Defined.

(** ** The loop over the agents *)

Lemma arrivals_of_app (a : Z) (l l' : list Reached) :
  arrivals_of a (l ++ l') = (arrivals_of a l + arrivals_of a l')%nat.
Proof. unfold arrivals_of. rewrite filter_app, length_app. reflexivity. Qed.

Lemma arrivals_of_one (a agent : Z) (dest : Vector3) :
  arrivals_of a [mkReached agent dest] = if Z.eqb agent a then 1%nat else 0%nat.
Proof.
  unfold arrivals_of. rewrite filter_cons, filter_nil. cbn [agentIndex].
  destruct (Z.eqb_spec agent a) as [->|Hne].
  - rewrite decide_True by reflexivity. reflexivity.
  - rewrite decide_False by exact Hne. reflexivity.
Qed.

Lemma armed_slots_frame (a : Z) (rest : list Z) (index : nat)
    (armed armed' : list bool) :
  (forall j, (index <= j)%nat -> armed' !! j = armed !! j) ->
  armed_slots a rest index armed' = armed_slots a rest index armed.
Proof.
  revert index. induction rest as [|b rest IH]; intros index H; [reflexivity|].
  cbn [armed_slots]. rewrite (H index) by lia.
  rewrite (IH (S index)); [reflexivity|]. intros j Hj. apply H. lia.
Qed.

Section Loop.
Context `{R : Recast}.


(** One pass writes slot [index] only, and only adds notifications. *)
Lemma update_agent_frame (c : RecastJSCrowd.t) (index : nat) (agent : Z)
    (st st' : RecastJSCrowd.Tick) (o : Outcome) :
  RecastJSCrowd.update_agent c index agent st = (st', o) ->
  length (RecastJSCrowd.tick_transforms st') = length (RecastJSCrowd.tick_transforms st)
  /\ length (RecastJSCrowd.tick_armed st') = length (RecastJSCrowd.tick_armed st)
  /\ (forall j, j <> index ->
        RecastJSCrowd.tick_transforms st' !! j = RecastJSCrowd.tick_transforms st !! j
        /\ RecastJSCrowd.tick_armed st' !! j = RecastJSCrowd.tick_armed st !! j)
  /\ (exists more,
        RecastJSCrowd.tick_notified st' = RecastJSCrowd.tick_notified st ++ more).
Proof.
  unfold RecastJSCrowd.update_agent.
  destruct (RecastJSCrowd.tick_transforms st !! index) as [node|].
  2:{ intros [= <- <-]. repeat split; try reflexivity.
      exists []. symmetry. apply app_nil_r. }
  cbn [RecastJSCrowd.tick_armed RecastJSCrowd.tick_transforms
       RecastJSCrowd.tick_notified].
  destruct (default false (RecastJSCrowd.tick_armed st !! index)).
  2:{ intros [= <- <-]. cbn. rewrite length_insert.
      repeat split; try reflexivity.
      - apply list_lookup_insert_ne. congruence.
      - exists []. symmetry. apply app_nil_r. }
  destruct (RecastJSCrowd._agentDestination c !! index) as [dest|].
  2:{ intros [= <- <-]. cbn. rewrite length_insert.
      repeat split; try reflexivity.
      - apply list_lookup_insert_ne. congruence.
      - exists []. symmetry. apply app_nil_r. }
  destruct (RecastJSCrowd.arrival_test _ _ _); intros [= <- <-]; cbn;
    rewrite ?length_insert; repeat split; try reflexivity;
    try (apply list_lookup_insert_ne; congruence).
  - eexists. reflexivity.
  - exists []. symmetry. apply app_nil_r.
Qed.

(** One pass moves an armed slot of agent [a] into a notification for
    [a], or changes neither. *)
Lemma update_agent_pending (a : Z) (c : RecastJSCrowd.t) (index : nat)
    (agent : Z) (st st' : RecastJSCrowd.Tick) (o : Outcome) :
  RecastJSCrowd.update_agent c index agent st = (st', o) ->
  (arrivals_of a (RecastJSCrowd.tick_notified st')
   + (if Z.eqb agent a && default false (RecastJSCrowd.tick_armed st' !! index)
      then 1 else 0)
   = arrivals_of a (RecastJSCrowd.tick_notified st)
     + (if Z.eqb agent a && default false (RecastJSCrowd.tick_armed st !! index)
        then 1 else 0))%nat.
Proof.
  unfold RecastJSCrowd.update_agent.
  destruct (RecastJSCrowd.tick_transforms st !! index) as [node|];
    [|intros [= <- <-]; reflexivity].
  cbn [RecastJSCrowd.tick_armed RecastJSCrowd.tick_transforms
       RecastJSCrowd.tick_notified].
  destruct (RecastJSCrowd.tick_armed st !! index) as [[]|] eqn:Earmed;
    cbn [default];
    try (intros [= <- <-];
         cbn [RecastJSCrowd.tick_armed RecastJSCrowd.tick_notified];
         rewrite Earmed; reflexivity).
  destruct (RecastJSCrowd._agentDestination c !! index) as [dest|];
    [|intros [= <- <-];
      cbn [RecastJSCrowd.tick_armed RecastJSCrowd.tick_notified];
      rewrite Earmed; reflexivity].
  destruct (RecastJSCrowd.arrival_test _ _ _);
    intros [= <- <-];
    cbn [RecastJSCrowd.tick_armed RecastJSCrowd.tick_notified];
    [|rewrite Earmed; reflexivity].
  rewrite list_lookup_insert_eq by (eapply lookup_lt_Some; exact Earmed).
  rewrite arrivals_of_app, arrivals_of_one. cbn [default].
  destruct (Z.eqb agent a); cbn [andb]; unfold id; lia.
Qed.

(** The loop from slot [index] on leaves the slots below [index] alone. *)
Lemma update_agents_frame (c : RecastJSCrowd.t) (rest : list Z) (index : nat)
    (st st' : RecastJSCrowd.Tick) (o : Outcome) :
  RecastJSCrowd.update_agents c rest index st = (st', o) ->
  length (RecastJSCrowd.tick_transforms st') = length (RecastJSCrowd.tick_transforms st)
  /\ length (RecastJSCrowd.tick_armed st') = length (RecastJSCrowd.tick_armed st)
  /\ (forall j, (j < index)%nat ->
        RecastJSCrowd.tick_transforms st' !! j = RecastJSCrowd.tick_transforms st !! j
        /\ RecastJSCrowd.tick_armed st' !! j = RecastJSCrowd.tick_armed st !! j)
  /\ (exists more,
        RecastJSCrowd.tick_notified st' = RecastJSCrowd.tick_notified st ++ more).
Proof.
  revert index st. induction rest as [|agent rest IH]; intros index st.
  - intros [= <- <-]. repeat split; try reflexivity.
    exists []. symmetry. apply app_nil_r.
  - cbn [RecastJSCrowd.update_agents].
    destruct (RecastJSCrowd.update_agent c index agent st) as [st1 o1] eqn:E1.
    destruct (update_agent_frame _ _ _ _ _ _ E1) as (Ht1 & Ha1 & Hf1 & more1 & Hn1).
    destruct o1.
    + intros E. destruct (IH _ _ E) as (Ht & Ha & Hf & more & Hn).
      split; [congruence|]. split; [congruence|]. split.
      * intros j Hj. destruct (Hf j) as [Hx Hy]; [lia|].
        destruct (Hf1 j) as [Hx1 Hy1]; [lia|]. split; congruence.
      * exists (more1 ++ more). rewrite Hn, Hn1, app_assoc. reflexivity.
    + intros [= <- <-]. split; [exact Ht1|]. split; [exact Ha1|]. split.
      * intros j Hj. apply Hf1. lia.
      * exists more1. exact Hn1.
Qed.

(** Over the loop, notifications for [a] and armed slots of [a] add up to
    what they were, whether the loop ends or throws. *)
Lemma update_agents_pending (a : Z) (c : RecastJSCrowd.t) (rest : list Z)
    (index : nat) (st st' : RecastJSCrowd.Tick) (o : Outcome) :
  RecastJSCrowd.update_agents c rest index st = (st', o) ->
  (arrivals_of a (RecastJSCrowd.tick_notified st')
   + armed_slots a rest index (RecastJSCrowd.tick_armed st')
   = arrivals_of a (RecastJSCrowd.tick_notified st)
     + armed_slots a rest index (RecastJSCrowd.tick_armed st))%nat.
Proof.
  revert index st. induction rest as [|agent rest IH]; intros index st.
  - intros [= <- <-]. reflexivity.
  - cbn [RecastJSCrowd.update_agents armed_slots].
    destruct (RecastJSCrowd.update_agent c index agent st) as [st1 o1] eqn:E1.
    pose proof (update_agent_pending a _ _ _ _ _ _ E1) as Hhead.
    destruct (update_agent_frame _ _ _ _ _ _ E1) as (_ & _ & Hf1 & _).
    assert (Htail : armed_slots a rest (S index) (RecastJSCrowd.tick_armed st1)
                    = armed_slots a rest (S index) (RecastJSCrowd.tick_armed st)).
    { apply armed_slots_frame. intros j Hj. apply Hf1. lia. }
    destruct o1.
    + intros E. pose proof (IH _ _ E) as Hrest.
      destruct (update_agents_frame _ _ _ _ _ _ E) as (_ & _ & Hf & _).
      destruct (Hf index) as [_ Hsame]; [lia|]. rewrite Hsame. lia.
    + intros [= <- <-]. lia.
Qed.

(** Over one [update], likewise. *)
Lemma update_pending (a : Z) (plugin : RecastNavigationJSPlugin.t)
    (c : RecastJSCrowd.t) (deltaTime : Q) :
  let u := RecastJSCrowd.update plugin c deltaTime in
  (arrivals_of a (RecastJSCrowd.updated_notified u)
   + pending a (RecastJSCrowd.updated_crowd u)
   = pending a c)%nat.
Proof.
  intros u. subst u. unfold RecastJSCrowd.update.
  destruct (Qle_bool deltaTime Epsilon); [reflexivity|].
  match goal with
  | |- context [RecastJSCrowd.update_agents ?c' ?rest ?i ?st0] =>
      destruct (RecastJSCrowd.update_agents c' rest i st0) as [st outcome] eqn:E
  end.
  apply (update_agents_pending a) in E. exact E.
Qed.

(** Over a run of ticks, likewise. *)
Lemma run_updates_pending (a : Z)
    (ticks : list (RecastNavigationJSPlugin.t * Q)) (c : RecastJSCrowd.t) :
  (arrivals_of a (snd (run_updates c ticks)) + pending a (fst (run_updates c ticks))
   = pending a c)%nat.
Proof.
  revert c. induction ticks as [|[plugin deltaTime] ticks IH]; intros c.
  - reflexivity.
  - cbn [run_updates].
    pose proof (update_pending a plugin c deltaTime) as Hu. cbv zeta in Hu.
    specialize (IH (RecastJSCrowd.updated_crowd
                      (RecastJSCrowd.update plugin c deltaTime))).
    destruct (run_updates _ ticks) as [c' later]. cbn [fst snd] in *.
    rewrite arrivals_of_app. lia.
Qed.

End Loop.

(** ** Pending destinations *)

Lemma armed_slots_none (a : Z) (rest : list Z) (index : nat) (armed : list bool) :
  (forall j, rest !! j = Some a -> armed !! (index + j)%nat <> Some true) ->
  armed_slots a rest index armed = O.
Proof.
  revert index. induction rest as [|b rest IH]; intros index H; [reflexivity|].
  cbn [armed_slots]. rewrite (IH (S index)).
  - destruct (Z.eqb_spec b a) as [->|Hne]; [|reflexivity].
    specialize (H O eq_refl). rewrite Nat.add_0_r in H.
    destruct (armed !! index) as [[]|]; [congruence|reflexivity|reflexivity].
  - intros j Hj. specialize (H (S j) Hj).
    rewrite Nat.add_succ_r in H. exact H.
Qed.

Lemma armed_slots_first (a : Z) (rest : list Z) (index : nat) (armed : list bool) :
  (forall i j,
     rest !! i = Some a -> armed !! (index + i)%nat = Some true ->
     rest !! j = Some a -> (i <= j)%nat) ->
  (armed_slots a rest index armed <= 1)%nat.
Proof.
  revert index. induction rest as [|b rest IH]; intros index H; [cbn; lia|].
  cbn [armed_slots].
  destruct (Z.eqb_spec b a) as [->|Hne].
  - rewrite armed_slots_none; [destruct (default false _); cbn; lia|].
    intros j Hj Harmed.
    specialize (H (S j) O Hj). rewrite Nat.add_succ_r in H.
    specialize (H Harmed eq_refl). lia.
  - cbn [andb]. specialize (IH (S index)). cbn. apply IH.
    intros i j Hi Harmed Hj.
    specialize (H (S i) (S j) Hi). rewrite Nat.add_succ_r in H.
    specialize (H Harmed Hj). lia.
Qed.


Section Pending.
Context `{R : Recast}.

Lemma pending_at_most_one (a : Z) (c : RecastJSCrowd.t) :
  armed_first c -> (pending a c <= 1)%nat.
Proof.
  intros H. unfold pending. apply armed_slots_first.
  intros i j Hi Harmed Hj. exact (H i j a Hi Harmed Hj).
Qed.

(** [agentGoto] keeps [agents] and either keeps the flags or arms the first
    slot of the agent. *)
Lemma agentGoto_arrays (c : RecastJSCrowd.t) (index : Z) (dest : Vector3) :
  let c' := fst (RecastJSCrowd.agentGoto c index dest) in
  RecastJSCrowd.agents c' = RecastJSCrowd.agents c
  /\ RecastJSCrowd.transforms c' = RecastJSCrowd.transforms c
  /\ RecastJSCrowd.reachRadii c' = RecastJSCrowd.reachRadii c
  /\ length (RecastJSCrowd._agentDestination c')
     = length (RecastJSCrowd._agentDestination c)
  /\ (RecastJSCrowd._agentDestinationArmed c' = RecastJSCrowd._agentDestinationArmed c
      \/ exists item : nat,
           RecastJSCrowd.agents c !! item = Some index
           /\ (forall j, RecastJSCrowd.agents c !! j = Some index -> (item <= j)%nat)
           /\ RecastJSCrowd._agentDestinationArmed c'
              = array_set (RecastJSCrowd._agentDestinationArmed c) item true).
Proof.
  intros c'. subst c'.
  unfold RecastJSCrowd.agentGoto, RecastJSCrowd.set_recastCrowd.
  cbn [RecastJSCrowd.agents RecastJSCrowd.transforms RecastJSCrowd.reachRadii
       RecastJSCrowd._agentDestinationArmed RecastJSCrowd._agentDestination
       RecastJSCrowd.recastCrowd].
  destruct (indexOf_spec (RecastJSCrowd.agents c) index)
    as [[E _]|(Hpos & Hat & Hfirst)].
  - rewrite E. cbn. repeat split. left. reflexivity.
  - destruct (Z.ltb_spec (-1) (indexOf (RecastJSCrowd.agents c) index)); [|lia].
    destruct (RecastJSCrowd._agentDestination c !! _);
      cbn [fst RecastJSCrowd.agents RecastJSCrowd.transforms RecastJSCrowd.reachRadii
           RecastJSCrowd._agentDestinationArmed RecastJSCrowd._agentDestination];
      rewrite ?length_insert; repeat split; right; eexists; eauto.
Qed.

Lemma agentGoto_armed_first (c : RecastJSCrowd.t) (index : Z) (dest : Vector3) :
  armed_first c -> armed_first (fst (RecastJSCrowd.agentGoto c index dest)).
Proof.
  intros H.
  destruct (agentGoto_arrays c index dest) as (Eg & _ & _ & _ & Harmed).
  unfold armed_first. rewrite Eg.
  destruct Harmed as [->|(item & Hat & Hfirst & ->)]; [exact H|].
  intros i j a Hi Hflag Hj.
  destruct (Nat.eq_dec item i) as [<-|Hne].
  - assert (a = index) by congruence. subst a. apply Hfirst, Hj.
  - apply (H i j a Hi); [|exact Hj].
    eapply array_set_lookup_ne; eassumption.
Qed.

(** C6.  In a crowd whose armed slots are first slots of their agents (as
    in every crowd its own methods build, lemma [crowd_calls_armed_first]),
    after one [agentGoto] for an agent, any run of [update] calls, whatever
    the ticks and the plugin's settings, notifies at most one arrival of
    that agent: a notification disarms the flag and [update] never arms
    one. *)
Theorem arrival_notified_once (c : RecastJSCrowd.t) (index : Z) (dest : Vector3)
    (ticks : list (RecastNavigationJSPlugin.t * Q)) :
  armed_first c ->
  (arrivals_of index
     (snd (run_updates (fst (RecastJSCrowd.agentGoto c index dest)) ticks))
   <= 1)%nat.
Proof.
  intros H.
  pose proof (run_updates_pending index ticks
                (fst (RecastJSCrowd.agentGoto c index dest))) as Hrun.
  pose proof (pending_at_most_one index _ (agentGoto_armed_first c index dest H)).
  lia.
Qed.

End Pending.

(** ** What the crowd's methods keep *)

Section Invariants.
Context `{R : Recast}.

(** One pass of the loop arms no flag. *)
Lemma update_agent_disarms (c : RecastJSCrowd.t) (index : nat) (agent : Z)
    (st st' : RecastJSCrowd.Tick) (o : Outcome) (j : nat) :
  RecastJSCrowd.update_agent c index agent st = (st', o) ->
  RecastJSCrowd.tick_armed st' !! j = Some true ->
  RecastJSCrowd.tick_armed st !! j = Some true.
Proof.
  unfold RecastJSCrowd.update_agent.
  destruct (RecastJSCrowd.tick_transforms st !! index) as [node|];
    [|intros [= <- <-]; trivial].
  cbn [RecastJSCrowd.tick_armed RecastJSCrowd.tick_transforms
       RecastJSCrowd.tick_notified].
  destruct (default false (RecastJSCrowd.tick_armed st !! index));
    [|intros [= <- <-]; trivial].
  destruct (RecastJSCrowd._agentDestination c !! index) as [dest|];
    [|intros [= <- <-]; trivial].
  destruct (RecastJSCrowd.arrival_test _ _ _); intros [= <- <-];
    cbn [RecastJSCrowd.tick_armed]; [|trivial].
  intros H. apply list_lookup_insert_Some in H as [(_ & Hf & _)|[_ H]];
    [discriminate|exact H].
Qed.

Lemma update_agents_disarms (c : RecastJSCrowd.t) (rest : list Z) (index : nat)
    (st st' : RecastJSCrowd.Tick) (o : Outcome) (j : nat) :
  RecastJSCrowd.update_agents c rest index st = (st', o) ->
  RecastJSCrowd.tick_armed st' !! j = Some true ->
  RecastJSCrowd.tick_armed st !! j = Some true.
Proof.
  revert index st. induction rest as [|agent rest IH]; intros index st.
  - intros [= <- <-]. trivial.
  - cbn [RecastJSCrowd.update_agents].
    destruct (RecastJSCrowd.update_agent c index agent st) as [st1 o1] eqn:E1.
    destruct o1.
    + intros E H. eapply update_agent_disarms; [exact E1|].
      eapply IH; eassumption.
    + intros [= <- <-]. eapply update_agent_disarms. exact E1.
Qed.

(** [update] keeps [agents], [reachRadii] and the destinations, keeps the
    lengths of the transforms and of the flags, and arms no flag. *)
Lemma update_arrays (plugin : RecastNavigationJSPlugin.t) (c : RecastJSCrowd.t)
    (deltaTime : Q) :
  let c' := RecastJSCrowd.updated_crowd (RecastJSCrowd.update plugin c deltaTime) in
  RecastJSCrowd.agents c' = RecastJSCrowd.agents c
  /\ RecastJSCrowd.reachRadii c' = RecastJSCrowd.reachRadii c
  /\ RecastJSCrowd._agentDestination c' = RecastJSCrowd._agentDestination c
  /\ length (RecastJSCrowd.transforms c') = length (RecastJSCrowd.transforms c)
  /\ length (RecastJSCrowd._agentDestinationArmed c')
     = length (RecastJSCrowd._agentDestinationArmed c)
  /\ (forall j, RecastJSCrowd._agentDestinationArmed c' !! j = Some true ->
                RecastJSCrowd._agentDestinationArmed c !! j = Some true).
Proof.
  intros c'. subst c'. unfold RecastJSCrowd.update.
  destruct (Qle_bool deltaTime Epsilon); [cbn; repeat split; trivial|].
  match goal with
  | |- context [RecastJSCrowd.update_agents ?c' ?rest ?i ?st0] =>
      destruct (RecastJSCrowd.update_agents c' rest i st0) as [st outcome] eqn:E
  end.
  destruct (update_agents_frame _ _ _ _ _ _ E) as (Ht & Ha & _ & _).
  cbn. repeat split; trivial.
  intros j. apply (update_agents_disarms _ _ _ _ _ _ j E).
Qed.

Lemma update_armed_first (plugin : RecastNavigationJSPlugin.t)
    (c : RecastJSCrowd.t) (deltaTime : Q) :
  armed_first c ->
  armed_first (RecastJSCrowd.updated_crowd (RecastJSCrowd.update plugin c deltaTime)).
Proof.
  intros H. destruct (update_arrays plugin c deltaTime) as (Eg & _ & _ & _ & _ & Hd).
  unfold armed_first. rewrite Eg. intros i j a Hi Hflag Hj.
  apply (H i j a Hi (Hd i Hflag) Hj).
Qed.

Lemma update_lockstep4 (plugin : RecastNavigationJSPlugin.t)
    (c : RecastJSCrowd.t) (deltaTime : Q) :
  lockstep4 c ->
  lockstep4 (RecastJSCrowd.updated_crowd (RecastJSCrowd.update plugin c deltaTime)).
Proof.
  intros (Ht & Ha & Hd).
  destruct (update_arrays plugin c deltaTime) as (Eg & _ & Ed & Et & Ea & _).
  unfold lockstep4. rewrite Eg, Ed, Et, Ea. repeat split; assumption.
Qed.

Lemma agentGoto_lockstep4 (c : RecastJSCrowd.t) (index : Z) (dest : Vector3) :
  lockstep4 c -> lockstep4 (fst (RecastJSCrowd.agentGoto c index dest)).
Proof.
  intros (Ht & Ha & Hd).
  destruct (agentGoto_arrays c index dest) as (Eg & Et & _ & Ed & Harmed).
  unfold lockstep4. rewrite Eg, Et, Ed.
  split; [exact Ht|]. split; [|exact Hd].
  destruct Harmed as [->|(item & Hat & _ & ->)]; [exact Ha|].
  rewrite length_array_set; [exact Ha|].
  rewrite Ha. eapply lookup_lt_Some. exact Hat.
Qed.

Lemma addAgent_armed_first (c : RecastJSCrowd.t) (pos : Vector3)
    (parameters : IAgentParameters) (transform : TransformNode) :
  lockstep4 c -> armed_first c ->
  armed_first (fst (RecastJSCrowd.addAgent c pos parameters transform)).
Proof.
  intros (_ & Ha & _) H. unfold RecastJSCrowd.addAgent.
  destruct (crowd_addAgent _ _ _) as [crowd agent].
  unfold armed_first. cbn [fst RecastJSCrowd.agents RecastJSCrowd._agentDestinationArmed].
  intros i j a Hi Hflag Hj.
  assert (Hlt : (i < length (RecastJSCrowd._agentDestinationArmed c))%nat).
  { apply lookup_lt_Some in Hflag as Hlen. rewrite length_app in Hlen. cbn in Hlen.
    destruct (Nat.eq_dec i (length (RecastJSCrowd._agentDestinationArmed c)))
      as [->|]; [|lia].
    rewrite lookup_app_r, Nat.sub_diag in Hflag by lia. discriminate. }
  rewrite lookup_app_l in Hflag by exact Hlt.
  rewrite lookup_app_l in Hi by lia.
  destruct (Nat.lt_ge_cases j (length (RecastJSCrowd.agents c))) as [Hjlt|Hjge].
  - rewrite lookup_app_l in Hj by exact Hjlt. exact (H i j a Hi Hflag Hj).
  - lia.
Qed.

Lemma lookup_delete_shift {A : Type} (l : list A) (item i : nat) :
  delete item l !! i = l !! (if (i <? item)%nat then i else S i).
Proof.
  destruct (Nat.ltb_spec i item).
  - apply list_lookup_delete_lt. assumption.
  - apply list_lookup_delete_ge. assumption.
Qed.

Lemma removeAgent_armed_first (c : RecastJSCrowd.t) (index : Z) :
  armed_first c -> armed_first (RecastJSCrowd.removeAgent c index).
Proof.
  intros H. unfold armed_first.
  destruct (removeAgent_arrays c index)
    as [(item & _ & _ & Eg & _ & Ea & _)|(_ & Eg & _ & Ea & _)];
    rewrite Eg, Ea; [|exact H].
  intros i j a. rewrite !lookup_delete_shift. intros Hi Hflag Hj.
  pose proof (H _ _ a Hi Hflag Hj) as Hle.
  destruct (Nat.ltb_spec i item), (Nat.ltb_spec j item); lia.
Qed.

Lemma crowd_call_invariant (c : RecastJSCrowd.t) (call : CrowdCall) :
  lockstep4 c /\ armed_first c ->
  lockstep4 (crowd_call c call) /\ armed_first (crowd_call c call).
Proof.
  intros [Hl Hf]. destruct call; cbn [crowd_call].
  - split; [apply addAgent_lockstep4|apply addAgent_armed_first]; assumption.
  - split; [apply removeAgent_lockstep4|apply removeAgent_armed_first]; assumption.
  - split; [apply agentGoto_lockstep4|apply agentGoto_armed_first]; assumption.
  - unfold RecastJSCrowd.agentTeleport.
    destruct (crowd_getAgent _ _); split; assumption.
  - split; [apply update_lockstep4|apply update_armed_first]; assumption.
  - split; assumption.
Qed.

(** In every crowd built from a new one by the crowd's methods, the arrays
    other than [reachRadii] have one length and the armed slots are first
    slots of their agents. *)
Lemma crowd_calls_armed_first (crowd : Crowd) (calls : list CrowdCall) :
  lockstep4 (crowd_calls (RecastJSCrowd.new crowd) calls)
  /\ armed_first (crowd_calls (RecastJSCrowd.new crowd) calls).
Proof.
  unfold crowd_calls.
  assert (H0 : lockstep4 (RecastJSCrowd.new crowd)
               /\ armed_first (RecastJSCrowd.new crowd)).
  { split; [repeat split|]. intros i j a Hi. cbn in Hi.
    rewrite lookup_nil in Hi. discriminate. }
  revert H0. generalize (RecastJSCrowd.new crowd).
  induction calls as [|call calls IH]; intros c H; [exact H|].
  cbn [fold_left]. apply IH, crowd_call_invariant, H.
Qed.

End Invariants.

(** ** Arrival *)

Section Arrival.
Context `{R : Recast}.





End Arrival.



Lemma arrival_notified_once_witness :
  (arrivals_of 0
     (snd (run_updates
             (fst (RecastJSCrowd.agentGoto Bench.crowd1 0 (mkVector3 5 0 5)))
             [(Bench.plugin, 1 # 2); (Bench.plugin, 1 # 60); (Bench.plugin, 1 # 2)]%Q))
   <= 1)%nat.
Proof.
  apply (arrival_notified_once (R := Bench.recast) Bench.crowd1 0
           (mkVector3 5 0 5)).
  apply (crowd_calls_armed_first (R := Bench.recast)).
Defined.

(** The bound of C6 is reached: the agent arrives at the first tick, is
    notified once, and stays silent while it lingers at its destination;
    a second [agentGoto] arms the slot again. *)
Example lingering_agent_notified_once :
  let ticks := [(Bench.plugin, 1 # 2); (Bench.plugin, 1 # 60); (Bench.plugin, 1 # 2)]%Q in
  let '(c, notified) :=
    run_updates (fst (RecastJSCrowd.agentGoto Bench.crowd1 0 (mkVector3 5 0 5)))
      ticks in
  notified = [mkReached 0 (mkVector3 5 0 5)]
  /\ snd (run_updates (fst (RecastJSCrowd.agentGoto c 0 (mkVector3 5 0 5))) ticks)
     = [mkReached 0 (mkVector3 5 0 5)].
Proof. vm_compute. split; reflexivity. Qed.

(** The scenario of the specification: with [timeStep = 0], a tick of 0.5
    reaches the crowd-stepping part once, with the full 0.5. *)
Example update_no_timeStep_scenario :
  RecastJSCrowd.updated_steps
    (RecastJSCrowd.update
       (RecastNavigationJSPlugin.setTimeStep Bench.plugin 0) Bench.crowd (1 # 2))
  = [1 # 2]%Q.
Proof. reflexivity. Qed.

(** A maximum sub-step count that is not a whole number breaks the even
    split: with at most 2.5 sub-steps, a tick of 0.5 makes three sub-steps
    of 0.5 / 2.5, the double 0.2. *)
Example update_fractional_maximum :
  RecastJSCrowd.updated_steps
    (RecastJSCrowd.update
       (RecastNavigationJSPlugin.setMaximumSubStepCount Bench.plugin (5 # 2))
       Bench.crowd (1 # 2))
  = replicate 3 (Qdiv64 (1 # 2) (5 # 2))
  /\ (Qdiv64 (1 # 2) (5 # 2) == 3602879701896397 # 18014398509481984)%Q.
Proof. vm_compute. split; reflexivity. Qed.

(** The rounding of the quotient decides the count: for the doubles 0.15
    and 1/60 the quotient rounds to 9, and the tick makes 9 sub-steps, where
    the exact quotient of the two doubles is below 9. *)
Example iteration_count_rounded :
  let timeStep := round64 (1 # 60) in
  let deltaTime := round64 (15 # 100) in
  iteration_count timeStep deltaTime 0 = 9
  /\ Qfloor (deltaTime / timeStep) = 8.
Proof. vm_compute. split; reflexivity. Qed.

(** A sub-step can be shorter than the time step: for the doubles 1.7 and
    0.1 the quotient rounds to 17, and the step 1.7 / 17 is the double just
    below 0.1. *)
Example sub_step_below_timeStep :
  let timeStep := round64 (1 # 10) in
  let deltaTime := round64 (17 # 10) in
  iteration_count timeStep deltaTime 0 = 17
  /\ (Qdiv64 deltaTime 17 == 7205759403792793 # 72057594037927936)%Q
  /\ (Qdiv64 deltaTime 17 < timeStep)%Q.
Proof. vm_compute. repeat split; reflexivity. Qed.

(** * Further properties *)

(** ** Pausing, and the number and size of the crowd updates *)

Section Stepping.
Context `{R : Recast}.

(** X1.  Once [timeFactor] was set to zero or to a negative value, the
    per-frame observer is paused for every frame time: it makes one call of
    [recastCrowd.update], of size 0, no crowd step, writes no transform,
    touches no flag and notifies nothing. *)
Theorem timeFactor_pause (p : RecastNavigationJSPlugin.t) (c : RecastJSCrowd.t)
    (value deltaTimeMs : Q) :
  (value <= 0)%Q ->
  let u := RecastJSCrowd.onBeforeAnimations (set_timeFactor p value) c deltaTimeMs in
  (timeFactor (set_timeFactor p value) == 0)%Q
  /\ (exists deltaTime,
        RecastJSCrowd.updated_calls u = [deltaTime] /\ (deltaTime == 0)%Q)
  /\ RecastJSCrowd.updated_steps u = []
  /\ RecastJSCrowd.updated_notified u = []
  /\ RecastJSCrowd.updated_outcome u = Returned
  /\ RecastJSCrowd.transforms (RecastJSCrowd.updated_crowd u)
     = RecastJSCrowd.transforms c
  /\ RecastJSCrowd._agentDestinationArmed (RecastJSCrowd.updated_crowd u)
     = RecastJSCrowd._agentDestinationArmed c.
Proof.
  intros Hvalue u. subst u.
  unfold RecastJSCrowd.onBeforeAnimations, timeFactor, set_timeFactor.
  cbn [RecastNavigationJSPlugin._timeFactor].
  apply Qlt_bool_false in Hvalue. rewrite Hvalue.
  split; [reflexivity|].
  set (deltaTime := (deltaTimeMs * (1 # 1000) * 0)%Q).
  assert (Hzero : (deltaTime == 0)%Q) by (unfold deltaTime; ring).
  assert (Hskip : Qle_bool deltaTime Epsilon = true).
  { apply Qle_bool_iff. rewrite Hzero. apply Qlt_le_weak, Epsilon_pos. }
  unfold RecastJSCrowd.update. rewrite Hskip. cbn.
  split; [exists deltaTime; split; [reflexivity|exact Hzero]|].
  repeat split.
Qed.

(** X2.  With a whole maximum of at least one sub-step, one call of
    [update] never makes more than [maxSubStepCount + 1] calls of
    [recastCrowd.update], whatever the tick and the time step, and it makes
    at least one; the library's crowd after [update] is the one before it
    advanced by every one of these calls. *)
Theorem update_steps_capped (plugin : RecastNavigationJSPlugin.t)
    (c : RecastJSCrowd.t) (deltaTime : Q) (maxSubStepCount : Z) :
  (RecastNavigationJSPlugin.getMaximumSubStepCount plugin
   == inject_Z maxSubStepCount)%Q ->
  1 <= maxSubStepCount ->
  let u := RecastJSCrowd.update plugin c deltaTime in
  (1 <= length (RecastJSCrowd.updated_calls u) <= S (Z.to_nat maxSubStepCount))%nat
  /\ ((Epsilon < deltaTime)%Q -> (2 <= length (RecastJSCrowd.updated_calls u))%nat)
  /\ RecastJSCrowd.recastCrowd (RecastJSCrowd.updated_crowd u)
     = fold_left crowd_update (RecastJSCrowd.updated_calls u)
         (RecastJSCrowd.recastCrowd c).
Proof.
  intros Hm Hpos u.
  assert (Hlen : forall steps,
    steps = RecastJSCrowd.sub_steps (RecastNavigationJSPlugin.getTimeStep plugin)
              (RecastNavigationJSPlugin.getMaximumSubStepCount plugin) deltaTime ->
    (1 <= length steps <= Z.to_nat maxSubStepCount)%nat).
  { intros steps ->.
    destruct (Qlt_le_dec Epsilon (RecastNavigationJSPlugin.getTimeStep plugin))
      as [Hts|Hts].
    - destruct (sub_steps_fixed _ _ deltaTime _ Hts Hm) as (ic & _ & ->).
      rewrite length_replicate.
      pose proof (iteration_count_pos
                    (RecastNavigationJSPlugin.getTimeStep plugin) deltaTime
                    maxSubStepCount).
      pose proof (iteration_count_capped
                    (RecastNavigationJSPlugin.getTimeStep plugin) deltaTime
                    maxSubStepCount Hpos).
      lia.
    - rewrite (sub_steps_no_timeStep _ _ _ Hts). cbn [length]. lia. }
  split; [|split].
  - destruct (Qlt_le_dec Epsilon deltaTime) as [Hdt|Hdt].
    + destruct (update_calls_stepped plugin c deltaTime Hdt) as [Hcalls _].
      subst u. rewrite Hcalls. cbn [length].
      specialize (Hlen _ eq_refl). lia.
    + destruct (update_calls_skipped plugin c deltaTime Hdt) as [Hcalls _].
      subst u. rewrite Hcalls. cbn [length]. lia.
  - intros Hdt.
    destruct (update_calls_stepped plugin c deltaTime Hdt) as [Hcalls _].
    subst u. rewrite Hcalls. cbn [length].
    specialize (Hlen _ eq_refl). lia.
  - apply update_crowd_calls.
Qed.

(** X3.  With a fixed time step, no maximum ([maxSubStepCount] zero) and a
    tick at least as long as the time step, every call of
    [recastCrowd.update] after the first is, up to the rounding of the two
    divisions, at least one time step long and at most two: no shorter
    than [timeStep * (1 - 2 ^ -52)] and no longer than
    [2 * timeStep * (1 + 2 ^ -51)]. *)
Theorem update_steps_size (plugin : RecastNavigationJSPlugin.t)
    (c : RecastJSCrowd.t) (deltaTime : Q) :
  let timeStep := RecastNavigationJSPlugin.getTimeStep plugin in
  (2 ^ (-1000) <= Epsilon)%Q ->
  (Epsilon < timeStep)%Q ->
  (timeStep <= deltaTime)%Q ->
  (RecastNavigationJSPlugin.getMaximumSubStepCount plugin == 0)%Q ->
  (deltaTime / timeStep <= max_value)%Q ->
  exists steps : list Q,
    RecastJSCrowd.updated_calls (RecastJSCrowd.update plugin c deltaTime)
    = deltaTime :: steps
    /\ steps <> []
    /\ Forall (fun step =>
                 (timeStep * (1 - 2 ^ (-52)) <= step
                  <= 2 * timeStep * (1 + 2 ^ (-51)))%Q) steps.
Proof.
  intros timeStep Heps Hts Hdt Hm _.
  pose proof Epsilon_pos as Hpos.
  assert (Hbig : (Epsilon < deltaTime)%Q) by lra.
  destruct (update_calls_stepped plugin c deltaTime Hbig) as [Hcalls _].
  fold timeStep in Hcalls.
  rewrite (sub_steps_whole timeStep _ deltaTime 0 Hts Hm) in Hcalls.
  cbv zeta in Hcalls.
  pose proof (iteration_count_pos timeStep deltaTime 0) as Hk.
  pose proof (sub_step_normal timeStep deltaTime 0 Heps Hts Hbig) as Hn.
  eexists. split; [exact Hcalls|]. split.
  { destruct (Z.to_nat (iteration_count timeStep deltaTime 0)) eqn:E;
      [lia|discriminate]. }
  apply Forall_replicate. unfold Qdiv64.
  pose proof (round64_error_normal _ Hn) as Hstep.
  (* the count is about the quotient *)
  assert (Hx1 : (1 <= deltaTime / timeStep)%Q).
  { apply Qle_shift_div_l; lra. }
  assert (Hxn : (2 ^ (-1022) <= deltaTime / timeStep)%Q).
  { eapply Qle_trans; [|exact Hx1].
    apply Qle_bool_iff. vm_compute. reflexivity. }
  pose proof (round64_error_normal _ Hxn) as Hr.
  assert (Hkf : iteration_count timeStep deltaTime 0
                = Z.max 1 (Qfloor (round64 (deltaTime / timeStep)))).
  { reflexivity. }
  pose proof (Qfloor_le (round64 (deltaTime / timeStep))) as Hf1.
  pose proof (Qlt_floor (round64 (deltaTime / timeStep))) as Hf2.
  rewrite inject_Z_plus in Hf2. change (inject_Z 1) with 1%Q in Hf2.
  set (k := iteration_count timeStep deltaTime 0) in *.
  set (f := Qfloor (round64 (deltaTime / timeStep))) in *.
  assert (HK1 : (1 <= inject_Z k)%Q).
  { change 1%Q with (inject_Z 1). rewrite <- Zle_Qle. exact Hk. }
  assert (HKf : (inject_Z f <= inject_Z k)%Q) by (rewrite <- Zle_Qle; lia).
  assert (HKle : (inject_Z k <= 1 \/ inject_Z k <= inject_Z f)%Q).
  { destruct (Z_le_gt_dec f 1).
    - left. change 1%Q with (inject_Z 1). rewrite <- Zle_Qle. lia.
    - right. rewrite <- Zle_Qle. lia. }
  assert (Hxt : (deltaTime / timeStep * timeStep == deltaTime)%Q).
  { field. intros H0. rewrite H0 in Hts. lra. }
  assert (Hq : (deltaTime / inject_Z k * inject_Z k == deltaTime)%Q).
  { field. intros H0. rewrite H0 in HK1. lra. }
  assert (Hu : (2 ^ (-53) <= 1 # 8)%Q)
    by (apply Qle_bool_iff; vm_compute; reflexivity).
  assert (Hu52 : (2 ^ (-52) == 2 * 2 ^ (-53))%Q) by reflexivity.
  assert (Hu51 : (2 ^ (-51) == 4 * 2 ^ (-53))%Q) by reflexivity.
  pose proof (pow2_pos (-53)) as Pu.
  rewrite Hu52, Hu51.
  set (x := (deltaTime / timeStep)%Q) in *.
  set (r := round64 x) in *.
  set (K := inject_Z k) in *. set (F := inject_Z f) in *.
  set (q := (deltaTime / K)%Q) in *.
  set (s := round64 q) in *.
  set (u := (2 ^ (-53))%Q) in *.
  assert (Hts0 : (0 < timeStep)%Q) by lra.
  (* K <= x (1 + u) and x (1 - u) <= 2 K *)
  assert (HKx : (K <= x * (1 + u))%Q) by (destruct HKle; nra).
  assert (HxK : (x * (1 - u) <= 2 * K)%Q) by nra.
  assert (Hq0 : (0 < q)%Q) by nra.
  (* timeStep <= q (1 + u) and q (1 - u) <= 2 timeStep *)
  assert (Hlo : (timeStep <= q * (1 + u))%Q).
  { assert (timeStep * x <= q * (1 + u) * x)%Q by nra. nra. }
  assert (Hhi : (q * (1 - u) <= 2 * timeStep)%Q).
  { assert (q * (1 - u) * x <= 2 * timeStep * x)%Q by nra. nra. }
  split.
  - assert ((timeStep * (1 - 2 * u)) * (1 + u) <= s * (1 + u))%Q by nra. nra.
  - assert (H : (s * (1 - u) <= (2 * timeStep * (1 + 4 * u)) * (1 - u))%Q) by nra.
    apply Qnot_lt_le. intros Hc.
    assert (H1u : (0 < 1 - u)%Q) by lra.
    set (b := (2 * timeStep * (1 + 4 * u))%Q) in *.
    assert (0 < (s - b) * (1 - u))%Q.
    { apply Qmult_lt_0_compat; lra. }
    lra.
Qed.

End Stepping.

Lemma timeFactor_pause_witness :
  RecastJSCrowd.updated_steps
    (RecastJSCrowd.onBeforeAnimations (set_timeFactor Bench.plugin (-1))
       Bench.walking 16)
  = [].
Proof.
  destruct (timeFactor_pause (R := Bench.recast) Bench.plugin Bench.walking
              (-1) 16) as (_ & _ & H & _).
  - discriminate.
  - exact H.
Defined.

Lemma update_steps_size_witness :
  exists steps : list Q,
    RecastJSCrowd.updated_calls
      (RecastJSCrowd.update
         (RecastNavigationJSPlugin.setMaximumSubStepCount Bench.plugin 0)
         Bench.crowd (17 # 10))
    = (17 # 10)%Q :: steps
    /\ steps <> [].
Proof.
  destruct (update_steps_size (R := Bench.recast)
              (RecastNavigationJSPlugin.setMaximumSubStepCount Bench.plugin 0)
              Bench.crowd (17 # 10)) as (steps & H1 & H2 & _).
  - apply Qle_bool_iff. vm_compute. reflexivity.
  - vm_compute. reflexivity.
  - apply Qle_bool_iff. vm_compute. reflexivity.
  - reflexivity.
  - apply Qle_bool_iff. vm_compute. reflexivity.
  - exists steps. split; [exact H1|exact H2].
Defined.

Lemma update_steps_capped_witness :
  (1 <= length
          (RecastJSCrowd.updated_calls
             (RecastJSCrowd.update Bench.plugin Bench.crowd 1))
   <= 11)%nat.
Proof.
  destruct (update_steps_capped (R := Bench.recast) Bench.plugin Bench.crowd 1 10)
    as (H & _).
  - reflexivity.
  - discriminate.
  - exact H.
Defined.

(** ** Paths, the query context and the worker *)

Lemma Vector3_eta (v : Vector3) : mkVector3 (x v) (y v) (z v) = v.
Proof. destruct v. reflexivity. Qed.

Section PathsAndQueries.
Context `{R : Recast}.






End PathsAndQueries.

Section ObstaclesAndWorker.
Context `{R : Recast}.


(** X7.  With a worker and a completion callback, [createNavMesh] on a
    non-empty array of meshes never throws: it posts the first mesh's
    buffers to the worker and keeps the navmesh and the query context it
    had.  The buffers go with the message, so the plugin's own arrays are
    detached afterwards.  The worker's reply installs the imported navmesh
    and a query context on it and leaves the arrays detached: as long as
    the plugin has no tile cache, an obstacle insertion after such a build
    throws a TypeError in the tile cache generation and changes nothing. *)
Theorem createNavMesh_worker (p : RecastNavigationJSPlugin.t)
    (mesh0 : Mesh) (others : list Mesh) (data : list Byte.byte) :
  defined (RecastNavigationJSPlugin._worker p) = true ->
  let r := RecastNavigationJSPlugin.createNavMesh p (mesh0 :: others) true in
  let p1 := RecastNavigationJSPlugin.created_plugin r in
  let p2 := RecastNavigationJSPlugin.worker_onmessage p1 data in
  RecastNavigationJSPlugin.created_outcome r = Returned
  /\ RecastNavigationJSPlugin.created_posted r
     = Some (RecastNavigationJSPlugin.mkWorkerMessage
               (map fround (default [] (getVerticesData mesh0)))
               (map fround (default [] (getIndices mesh0)))
               (5 # 100) (2 # 10))
  /\ RecastNavigationJSPlugin.navMesh p1 = RecastNavigationJSPlugin.navMesh p
  /\ RecastNavigationJSPlugin._navMeshQuery p1 = RecastNavigationJSPlugin._navMeshQuery p
  /\ RecastNavigationJSPlugin._tileCache p1 = RecastNavigationJSPlugin._tileCache p
  /\ RecastNavigationJSPlugin._positions p1 = Detached
  /\ RecastNavigationJSPlugin._indices p1 = Detached
  /\ RecastNavigationJSPlugin.navMesh p2 = importNavMesh data
  /\ RecastNavigationJSPlugin._navMeshQuery p2
     = Some (new_NavMeshQuery (importNavMesh data))
  /\ (RecastNavigationJSPlugin._tileCache p = None ->
      (forall pos radius height,
         RecastNavigationJSPlugin.addCylinderObstacle p2 pos radius height
         = (p2, None, Thrown "TypeError"))
      /\ (forall pos extent angle,
            RecastNavigationJSPlugin.addBoxObstacle p2 pos extent angle
            = (p2, None, Thrown "TypeError"))).
Proof.
  intros Hworker r p1 p2. subst p2 p1 r.
  unfold RecastNavigationJSPlugin.createNavMesh.
  cbn [RecastNavigationJSPlugin._worker RecastNavigationJSPlugin.set_indices
       RecastNavigationJSPlugin.set_positions].
  rewrite Hworker. cbn [andb].
  cbn [RecastNavigationJSPlugin.created_plugin RecastNavigationJSPlugin.created_outcome
       RecastNavigationJSPlugin.created_posted].
  repeat (split; [reflexivity|]).
  intros Htc.
  match goal with
  | |- context [RecastNavigationJSPlugin.worker_onmessage ?q data] =>
      set (p2 := RecastNavigationJSPlugin.worker_onmessage q data)
  end.
  assert (Hcreate :
    RecastNavigationJSPlugin._createTileCache p2 = (p2, false, Thrown "TypeError")).
  { unfold RecastNavigationJSPlugin._createTileCache.
    change (RecastNavigationJSPlugin._tileCache p2)
      with (RecastNavigationJSPlugin._tileCache p).
    rewrite Htc. reflexivity. }
  split.
  - intros pos radius height.
    unfold RecastNavigationJSPlugin.addCylinderObstacle.
    rewrite Hcreate. reflexivity.
  - intros pos extent angle.
    unfold RecastNavigationJSPlugin.addBoxObstacle.
    rewrite Hcreate. reflexivity.
Qed.

End ObstaclesAndWorker.



Lemma createNavMesh_worker_witness :
  let p :=
    RecastNavigationJSPlugin.worker_onmessage
      (RecastNavigationJSPlugin.created_plugin
         (RecastNavigationJSPlugin.createNavMesh
            (RecastNavigationJSPlugin.setWorker Bench.plugin 1) [Bench.quad] true))
      [] in
  RecastNavigationJSPlugin.addCylinderObstacle p Vector3_Zero 1 2
  = (p, None, Thrown "TypeError").
Proof.
  destruct (createNavMesh_worker (R := Bench.recast)
              (RecastNavigationJSPlugin.setWorker Bench.plugin 1)
              Bench.quad [] [])
    as (_ & _ & _ & _ & _ & _ & _ & _ & _ & H).
  - reflexivity.
  - destruct (H eq_refl) as [Hcylinder _]. apply Hcylinder.
Defined.

(** ** More on the crowd's update *)

Section UpdateMore.
Context `{R : Recast}.






Lemma update_agents_silent (c : RecastJSCrowd.t) (rest : list Z) (index : nat)
    (st st' : RecastJSCrowd.Tick) (o : Outcome) :
  RecastJSCrowd.reachRadii c = [] ->
  RecastJSCrowd.update_agents c rest index st = (st', o) ->
  RecastJSCrowd.tick_notified st' = RecastJSCrowd.tick_notified st.
Proof.
  intros Hnone. revert index st.
  induction rest as [|agent rest IH]; intros index st.
  - intros [= <- <-]. reflexivity.
  - cbn [RecastJSCrowd.update_agents].
    destruct (RecastJSCrowd.update_agent c index agent st) as [st1 o1] eqn:E1.
    assert (H1 : RecastJSCrowd.tick_notified st1 = RecastJSCrowd.tick_notified st).
    { revert E1. unfold RecastJSCrowd.update_agent. rewrite Hnone, lookup_nil.
      destruct (RecastJSCrowd.tick_transforms st !! index);
        [|intros [= <- _]; reflexivity].
      cbn [RecastJSCrowd.tick_armed RecastJSCrowd.tick_transforms
           RecastJSCrowd.tick_notified].
      destruct (default false _); [|intros [= <- _]; reflexivity].
      destruct (RecastJSCrowd._agentDestination c !! index);
        intros [= <- _]; reflexivity. }
    destruct o1.
    + intros E. rewrite (IH _ _ E). exact H1.
    + intros [= <- <-]. exact H1.
Qed.

End UpdateMore.

(** ** More on the crowd's agents *)

Lemma indexOf_first (l : list Z) (x : Z) (item : nat) :
  l !! item = Some x ->
  (forall j, l !! j = Some x -> (item <= j)%nat) ->
  indexOf l x = Z.of_nat item.
Proof.
  intros Hat Hfirst.
  destruct (indexOf_spec l x) as [[_ Hnone]|(Hpos & Hat' & Hfirst')].
  - exfalso. exact (Hnone item Hat).
  - pose proof (Hfirst _ Hat'). pose proof (Hfirst' _ Hat). lia.
Qed.

Lemma indexOf_absent (l : list Z) (x : Z) :
  (forall j, l !! j <> Some x) -> indexOf l x = -1.
Proof.
  intros Hnone.
  destruct (indexOf_spec l x) as [[E _]|(_ & Hat & _)]; [exact E|].
  exfalso. exact (Hnone _ Hat).
Qed.

Section AgentsMore.
Context `{R : Recast}.

Lemma update_silent (plugin : RecastNavigationJSPlugin.t) (c : RecastJSCrowd.t)
    (deltaTime : Q) :
  RecastJSCrowd.reachRadii c = [] ->
  RecastJSCrowd.updated_notified (RecastJSCrowd.update plugin c deltaTime) = [].
Proof.
  intros Hnone. unfold RecastJSCrowd.update.
  destruct (Qle_bool deltaTime Epsilon); [reflexivity|].
  match goal with
  | |- context [RecastJSCrowd.update_agents ?c1 ?rest ?i ?st0] =>
      pose proof (update_agents_silent c1 rest i st0) as Hs;
      destruct (RecastJSCrowd.update_agents c1 rest i st0) as [st outcome]
  end.
  exact (Hs st outcome Hnone eq_refl).
Qed.

Lemma crowd_method_keeps_no_radii (c : RecastJSCrowd.t) (call : CrowdCall) :
  crowd_method call = true ->
  RecastJSCrowd.reachRadii c = [] ->
  RecastJSCrowd.reachRadii (crowd_call c call) = [].
Proof.
  intros Hm Hnone. destruct call; try discriminate; cbn [crowd_call].
  - destruct (addAgent_lengths c pos parameters transform) as (_ & _ & _ & _ & ->).
    exact Hnone.
  - destruct (removeAgent_arrays c index)
      as [(item & _ & _ & _ & -> & _)|(_ & _ & -> & _)];
      rewrite Hnone; reflexivity.
  - destruct (agentGoto_arrays c index dest) as (_ & _ & -> & _). exact Hnone.
  - unfold RecastJSCrowd.agentTeleport.
    destruct (crowd_getAgent _ _); exact Hnone.
  - destruct (update_arrays plugin c deltaTime) as (_ & -> & _). exact Hnone.
Qed.

(** X10.  No method of the crowd writes [reachRadii], and the arrival test
    fails on a slot without reach radius: unless the application fills the
    array itself, no run of [addAgent], [removeAgent], [agentGoto],
    [agentTeleport] and [update] calls ever notifies an arrival. *)
Theorem no_arrival_without_reachRadii (c : RecastJSCrowd.t)
    (calls : list CrowdCall) :
  RecastJSCrowd.reachRadii c = [] ->
  forallb crowd_method calls = true ->
  snd (crowd_run c calls) = []
  /\ RecastJSCrowd.reachRadii (fst (crowd_run c calls)) = [].
Proof.
  revert c. induction calls as [|call calls IH]; intros c Hnone Hcalls.
  - split; [reflexivity|exact Hnone].
  - cbn [forallb] in Hcalls. apply andb_true_iff in Hcalls as [Hcall Hcalls].
    cbn [crowd_run].
    specialize (IH (crowd_call c call)
                  (crowd_method_keeps_no_radii c call Hcall Hnone) Hcalls).
    destruct (crowd_run (crowd_call c call) calls) as [c' later].
    cbn [fst snd] in *. destruct IH as [-> Hr]. split; [|exact Hr].
    rewrite app_nil_r. destruct call; try reflexivity.
    cbn [crowd_call_notified]. apply update_silent, Hnone.
Qed.

(** X11.  On a crowd whose arrays other than [reachRadii] have one length,
    [agentGoto] returns and keeps [transforms], [agents] and [reachRadii].
    For an agent the crowd does not hold it changes neither flags nor
    destinations; otherwise it arms the first slot of the agent and records
    a copy of the destination there, and leaves every other slot alone. *)
Theorem agentGoto_arms (c : RecastJSCrowd.t) (index : Z) (dest : Vector3) :
  lockstep4 c ->
  let c' := fst (RecastJSCrowd.agentGoto c index dest) in
  snd (RecastJSCrowd.agentGoto c index dest) = Returned
  /\ RecastJSCrowd.transforms c' = RecastJSCrowd.transforms c
  /\ RecastJSCrowd.agents c' = RecastJSCrowd.agents c
  /\ RecastJSCrowd.reachRadii c' = RecastJSCrowd.reachRadii c
  /\ ((forall j, RecastJSCrowd.agents c !! j <> Some index) ->
      RecastJSCrowd._agentDestinationArmed c' = RecastJSCrowd._agentDestinationArmed c
      /\ RecastJSCrowd._agentDestination c' = RecastJSCrowd._agentDestination c)
  /\ (forall item : nat,
        RecastJSCrowd.agents c !! item = Some index ->
        (forall j, RecastJSCrowd.agents c !! j = Some index -> (item <= j)%nat) ->
        RecastJSCrowd._agentDestinationArmed c'
        = <[item := true]> (RecastJSCrowd._agentDestinationArmed c)
        /\ RecastJSCrowd._agentDestination c'
           = <[item := dest]> (RecastJSCrowd._agentDestination c)
        /\ RecastJSCrowd._agentDestinationArmed c' !! item = Some true
        /\ RecastJSCrowd._agentDestination c' !! item = Some dest).
Proof.
  intros (Ht & Ha & Hd) c'. subst c'.
  unfold RecastJSCrowd.agentGoto, RecastJSCrowd.set_recastCrowd.
  cbn [RecastJSCrowd.agents RecastJSCrowd.transforms RecastJSCrowd.reachRadii
       RecastJSCrowd._agentDestinationArmed RecastJSCrowd._agentDestination
       RecastJSCrowd.recastCrowd].
  destruct (indexOf_spec (RecastJSCrowd.agents c) index)
    as [[E Hnone]|(Hpos & Hat & Hfirst)].
  - rewrite E. cbn [Z.ltb Z.compare fst snd RecastJSCrowd.agents
                    RecastJSCrowd.transforms RecastJSCrowd.reachRadii
                    RecastJSCrowd._agentDestinationArmed
                    RecastJSCrowd._agentDestination].
    repeat (split; [reflexivity|]). split.
    + intros _. split; reflexivity.
    + intros item Hitem _. exfalso. exact (Hnone item Hitem).
  - destruct (Z.ltb_spec (-1) (indexOf (RecastJSCrowd.agents c) index)); [|lia].
    set (n := Z.to_nat (indexOf (RecastJSCrowd.agents c) index)) in *.
    assert (Hn : (n < length (RecastJSCrowd.agents c))%nat).
    { eapply lookup_lt_Some. exact Hat. }
    destruct (lookup_lt_is_Some_2 (RecastJSCrowd._agentDestination c) n)
      as [old ->]; [lia|].
    cbn [fst snd RecastJSCrowd.agents RecastJSCrowd.transforms
         RecastJSCrowd.reachRadii RecastJSCrowd._agentDestinationArmed
         RecastJSCrowd._agentDestination].
    repeat (split; [reflexivity|]). split.
    + intros Hnone. exfalso. exact (Hnone n Hat).
    + intros item Hitem Hitem_first.
      assert (item = n) as ->.
      { pose proof (Hfirst _ Hitem). pose proof (Hitem_first _ Hat). lia. }
      rewrite Vector3_eta. unfold array_set.
      destruct (Nat.ltb_spec n (length (RecastJSCrowd._agentDestinationArmed c)));
        [|lia].
      repeat split; try reflexivity; apply list_lookup_insert_eq; lia.
Qed.

End AgentsMore.

Lemma no_arrival_without_reachRadii_witness :
  snd (crowd_run Bench.crowd
         [AddAgent (mkVector3 3 0 3) Bench.params Bench.node;
          AgentGoto 0 (mkVector3 5 0 5);
          Update Bench.plugin (1 # 2); Update Bench.plugin (1 # 2)])
  = [].
Proof.
  destruct (no_arrival_without_reachRadii (R := Bench.recast) Bench.crowd
              [AddAgent (mkVector3 3 0 3) Bench.params Bench.node;
               AgentGoto 0 (mkVector3 5 0 5);
               Update Bench.plugin (1 # 2); Update Bench.plugin (1 # 2)])
    as [H _].
  - reflexivity.
  - reflexivity.
  - exact H.
Defined.

Lemma agentGoto_arms_witness :
  snd (RecastJSCrowd.agentGoto Bench.crowd1 0 (mkVector3 5 0 5)) = Returned.
Proof.
  destruct (agentGoto_arms (R := Bench.recast) Bench.crowd1 0 (mkVector3 5 0 5))
    as (H & _).
  - apply (crowd_calls_armed_first (R := Bench.recast)).
  - exact H.
Defined.

Lemma delete_last {A : Type} (l : list A) (a : A) :
  delete (length l) (l ++ [a]) = l.
Proof.
  induction l as [|b l IH]; [reflexivity|]. cbn. f_equal. exact IH.
Qed.

Lemma delete_past_end {A : Type} (l : list A) (i : nat) :
  (length l <= i)%nat -> delete i l = l.
Proof.
  revert i. induction l as [|b l IH]; intros i Hi; [destruct i; reflexivity|].
  destruct i as [|i]; cbn in *; [lia|]. f_equal. apply IH. lia.
Qed.

Section AddRemove.
Context `{R : Recast}.

(** X12.  On a crowd whose arrays other than [reachRadii] have one length,
    [addAgent] binds the new agent to a clean last slot: the slot holds the
    index the library returned and the given transform, its flag is down
    and its destination is the origin, whatever was removed before.  The
    slots of the other agents are as they were. *)
Theorem addAgent_slot (c : RecastJSCrowd.t) (pos : Vector3)
    (parameters : IAgentParameters) (transform : TransformNode) :
  lockstep4 c ->
  let c' := fst (RecastJSCrowd.addAgent c pos parameters transform) in
  let agent := snd (RecastJSCrowd.addAgent c pos parameters transform) in
  let n := length (RecastJSCrowd.agents c) in
  RecastJSCrowd.agents c' !! n = Some agent
  /\ RecastJSCrowd.transforms c' !! n = Some transform
  /\ RecastJSCrowd._agentDestinationArmed c' !! n = Some false
  /\ RecastJSCrowd._agentDestination c' !! n = Some (mkVector3 0 0 0)
  /\ (forall i, (i < n)%nat ->
        RecastJSCrowd.agents c' !! i = RecastJSCrowd.agents c !! i
        /\ RecastJSCrowd.transforms c' !! i = RecastJSCrowd.transforms c !! i
        /\ RecastJSCrowd._agentDestinationArmed c' !! i
           = RecastJSCrowd._agentDestinationArmed c !! i
        /\ RecastJSCrowd._agentDestination c' !! i
           = RecastJSCrowd._agentDestination c !! i).
Proof.
  intros (Ht & Ha & Hd) c' agent n. subst c' agent n.
  unfold RecastJSCrowd.addAgent.
  destruct (crowd_addAgent _ _ _) as [crowd agent].
  cbn [fst snd RecastJSCrowd.agents RecastJSCrowd.transforms
       RecastJSCrowd._agentDestinationArmed RecastJSCrowd._agentDestination].
  split; [|split; [|split; [|split]]].
  - rewrite lookup_app_r, Nat.sub_diag by lia. reflexivity.
  - rewrite lookup_app_r by lia. rewrite Ht, Nat.sub_diag. reflexivity.
  - rewrite lookup_app_r by lia. rewrite Ha, Nat.sub_diag. reflexivity.
  - rewrite lookup_app_r by lia. rewrite Hd, Nat.sub_diag. reflexivity.
  - intros i Hi. repeat split; apply lookup_app_l; lia.
Qed.

(** X13.  Adding an agent and removing it again gives back the crowd's
    five arrays, provided the arrays other than [reachRadii] have one
    length, [reachRadii] is no longer than they are, and the library handed
    out an index that no agent of the crowd holds. *)
Theorem addAgent_removeAgent (c : RecastJSCrowd.t) (pos : Vector3)
    (parameters : IAgentParameters) (transform : TransformNode) :
  lockstep4 c ->
  (length (RecastJSCrowd.reachRadii c) <= length (RecastJSCrowd.agents c))%nat ->
  let agent := snd (RecastJSCrowd.addAgent c pos parameters transform) in
  (forall j, RecastJSCrowd.agents c !! j <> Some agent) ->
  let c' :=
    RecastJSCrowd.removeAgent
      (fst (RecastJSCrowd.addAgent c pos parameters transform)) agent in
  RecastJSCrowd.transforms c' = RecastJSCrowd.transforms c
  /\ RecastJSCrowd.agents c' = RecastJSCrowd.agents c
  /\ RecastJSCrowd.reachRadii c' = RecastJSCrowd.reachRadii c
  /\ RecastJSCrowd._agentDestinationArmed c'
     = RecastJSCrowd._agentDestinationArmed c
  /\ RecastJSCrowd._agentDestination c' = RecastJSCrowd._agentDestination c.
Proof.
  intros (Ht & Ha & Hd) Hr agent. subst agent.
  unfold RecastJSCrowd.addAgent.
  destruct (crowd_addAgent _ _ _) as [crowd agent].
  cbn [fst snd]. intros Hfresh.
  unfold RecastJSCrowd.removeAgent, RecastJSCrowd.set_recastCrowd.
  cbn [RecastJSCrowd.agents RecastJSCrowd.transforms RecastJSCrowd.reachRadii
       RecastJSCrowd._agentDestinationArmed RecastJSCrowd._agentDestination
       RecastJSCrowd.recastCrowd].
  rewrite (indexOf_first _ agent (length (RecastJSCrowd.agents c))).
  - destruct (Z.ltb_spec (-1) (Z.of_nat (length (RecastJSCrowd.agents c))));
      [|lia].
    rewrite Nat2Z.id.
    cbn [RecastJSCrowd.agents RecastJSCrowd.transforms RecastJSCrowd.reachRadii
         RecastJSCrowd._agentDestinationArmed RecastJSCrowd._agentDestination].
    split; [rewrite <- Ht; apply delete_last|].
    split; [apply delete_last|].
    split; [apply delete_past_end, Hr|].
    split; [rewrite <- Ha|rewrite <- Hd]; apply delete_last.
  - rewrite lookup_app_r, Nat.sub_diag by lia. reflexivity.
  - intros j Hj.
    destruct (Nat.lt_ge_cases j (length (RecastJSCrowd.agents c))) as [Hlt|]; [|lia].
    rewrite lookup_app_l in Hj by exact Hlt. exfalso. exact (Hfresh j Hj).
Qed.

(** X14.  [removeAgent] for an agent the crowd does not hold only forwards
    the call to the library.  Otherwise it takes the first slot of the
    agent out of all five arrays: the slots before it stay, the slots after
    it move down by one with their data, and when the crowd held the agent
    once, it holds it no more. *)
Theorem removeAgent_slot (c : RecastJSCrowd.t) (index : Z) :
  ((forall j, RecastJSCrowd.agents c !! j <> Some index) ->
   RecastJSCrowd.removeAgent c index
   = RecastJSCrowd.set_recastCrowd c
       (crowd_removeAgent (RecastJSCrowd.recastCrowd c) index))
  /\ (forall item : nat,
        RecastJSCrowd.agents c !! item = Some index ->
        (forall j, RecastJSCrowd.agents c !! j = Some index -> (item <= j)%nat) ->
        let c' := RecastJSCrowd.removeAgent c index in
        c' = RecastJSCrowd.mk
               (crowd_removeAgent (RecastJSCrowd.recastCrowd c) index)
               (delete item (RecastJSCrowd.transforms c))
               (delete item (RecastJSCrowd.agents c))
               (delete item (RecastJSCrowd.reachRadii c))
               (delete item (RecastJSCrowd._agentDestinationArmed c))
               (delete item (RecastJSCrowd._agentDestination c))
        /\ (forall j,
              let from := if (j <? item)%nat then j else S j in
              RecastJSCrowd.agents c' !! j = RecastJSCrowd.agents c !! from
              /\ RecastJSCrowd.transforms c' !! j
                 = RecastJSCrowd.transforms c !! from
              /\ RecastJSCrowd.reachRadii c' !! j
                 = RecastJSCrowd.reachRadii c !! from
              /\ RecastJSCrowd._agentDestinationArmed c' !! j
                 = RecastJSCrowd._agentDestinationArmed c !! from
              /\ RecastJSCrowd._agentDestination c' !! j
                 = RecastJSCrowd._agentDestination c !! from)
        /\ (NoDup (RecastJSCrowd.agents c) ->
            forall j, RecastJSCrowd.agents c' !! j <> Some index)).
Proof.
  split.
  - intros Hnone. unfold RecastJSCrowd.removeAgent.
    cbn [RecastJSCrowd.agents RecastJSCrowd.set_recastCrowd].
    rewrite (indexOf_absent _ _ Hnone). reflexivity.
  - intros item Hat Hfirst c'.
    assert (Hc' : c' = RecastJSCrowd.mk
               (crowd_removeAgent (RecastJSCrowd.recastCrowd c) index)
               (delete item (RecastJSCrowd.transforms c))
               (delete item (RecastJSCrowd.agents c))
               (delete item (RecastJSCrowd.reachRadii c))
               (delete item (RecastJSCrowd._agentDestinationArmed c))
               (delete item (RecastJSCrowd._agentDestination c))).
    { subst c'. unfold RecastJSCrowd.removeAgent.
      cbn [RecastJSCrowd.agents RecastJSCrowd.set_recastCrowd].
      rewrite (indexOf_first _ _ _ Hat Hfirst).
      destruct (Z.ltb_spec (-1) (Z.of_nat item)); [|lia].
      rewrite Nat2Z.id. reflexivity. }
    split; [exact Hc'|]. rewrite Hc'.
    cbn [RecastJSCrowd.agents RecastJSCrowd.transforms RecastJSCrowd.reachRadii
         RecastJSCrowd._agentDestinationArmed RecastJSCrowd._agentDestination].
    split.
    + intros j. repeat split; apply lookup_delete_shift.
    + intros Hnodup j Hj. rewrite lookup_delete_shift in Hj.
      pose proof (NoDup_lookup _ _ _ _ Hnodup Hj Hat) as Heq.
      destruct (Nat.ltb_spec j item); lia.
Qed.

(** X15.  [removeAgent], [agentGoto], [agentTeleport] and [update] keep the
    five arrays of one length: of the crowd's methods only [addAgent]
    brings them out of step. *)
Theorem crowd_methods_keep_lockstep (c : RecastJSCrowd.t) (call : CrowdCall) :
  lockstep c ->
  crowd_method call = true ->
  (forall pos parameters transform, call <> AddAgent pos parameters transform) ->
  lockstep (crowd_call c call).
Proof.
  intros Hl Hm Hadd.
  destruct call; try discriminate; cbn [crowd_call].
  - exfalso. eapply Hadd. reflexivity.
  - apply removeAgent_lockstep, Hl.
  - destruct Hl as (Ht & Hr & Ha & Hd).
    destruct (agentGoto_lockstep4 c index dest (conj Ht (conj Ha Hd)))
      as (Ht' & Ha' & Hd').
    destruct (agentGoto_arrays c index dest) as (Eg & _ & Er & _).
    unfold lockstep. rewrite Er. rewrite Eg in *. repeat split; assumption.
  - unfold RecastJSCrowd.agentTeleport.
    destruct (crowd_getAgent _ _); exact Hl.
  - destruct Hl as (Ht & Hr & Ha & Hd).
    destruct (update_arrays plugin c deltaTime) as (Eg & Er & Ed & Et & Ea & _).
    unfold lockstep. rewrite Eg, Er, Ed, Et, Ea. repeat split; assumption.
Qed.

End AddRemove.

Lemma addAgent_slot_witness :
  RecastJSCrowd._agentDestinationArmed
    (fst (RecastJSCrowd.addAgent
            (RecastJSCrowd.removeAgent Bench.walking 0)
            Vector3_Zero Bench.params Bench.node))
  !! O = Some false.
Proof.
  destruct (addAgent_slot (R := Bench.recast)
              (RecastJSCrowd.removeAgent Bench.walking 0)
              Vector3_Zero Bench.params Bench.node) as (_ & _ & H & _).
  - apply (crowd_calls_armed_first (R := Bench.recast) []
             [AddAgent (mkVector3 3 0 3) Bench.params Bench.node;
              SetReachRadii [1%Q]; AgentGoto 0 (mkVector3 5 0 5); RemoveAgent 0]).
  - exact H.
Defined.

Lemma addAgent_removeAgent_witness :
  RecastJSCrowd.agents
    (RecastJSCrowd.removeAgent
       (fst (RecastJSCrowd.addAgent Bench.crowd1 Vector3_Zero Bench.params Bench.node))
       1)
  = RecastJSCrowd.agents Bench.crowd1.
Proof.
  destruct (addAgent_removeAgent (R := Bench.recast) Bench.crowd1 Vector3_Zero
              Bench.params Bench.node) as (_ & H & _).
  - apply (crowd_calls_armed_first (R := Bench.recast)).
  - cbn. lia.
  - intros [|[|j]]; cbn; discriminate.
  - exact H.
Defined.

Lemma crowd_methods_keep_lockstep_witness :
  lockstep (crowd_call Bench.hovering (Update Bench.plugin (1 # 2))).
Proof.
  apply (crowd_methods_keep_lockstep (R := Bench.recast) Bench.hovering
           (Update Bench.plugin (1 # 2))).
  - repeat split.
  - reflexivity.
  - discriminate.
Defined.

(** ** Agents the library does not know, and parameter updates *)

Section UnknownAgent.
Context `{A : RecastAgents}.

(** X16.  For an index the library holds no agent for, nothing is thrown:
    the getters answer the origin, state 0 and [false], and [agentTeleport],
    [updateAgentParameters] and [agentGoto] make no call on the library's
    crowd ([agentGoto] still arms the slot when the crowd's own [agents]
    array lists the index). *)
Theorem unknown_agent (c : RecastJSCrowd.t) (index : Z) (dest : Vector3)
    (parameters : AgentParametersUpdate) :
  crowd_getAgent (RecastJSCrowd.recastCrowd c) index = None ->
  RecastJSCrowd.getAgentPosition c index = mkVector3 0 0 0
  /\ getAgentVelocity c index = mkVector3 0 0 0
  /\ getAgentNextTargetPath c index = mkVector3 0 0 0
  /\ getAgentState c index = 0%Q
  /\ overOffmeshConnection c index = false
  /\ RecastJSCrowd.agentTeleport c index dest = c
  /\ updateAgentParameters c index parameters = c
  /\ RecastJSCrowd.recastCrowd (fst (RecastJSCrowd.agentGoto c index dest))
     = RecastJSCrowd.recastCrowd c.
Proof.
  intros Hnone.
  unfold RecastJSCrowd.getAgentPosition, getAgentVelocity, getAgentNextTargetPath,
    getAgentState, overOffmeshConnection, RecastJSCrowd.agentTeleport,
    updateAgentParameters.
  rewrite Hnone. repeat (split; [reflexivity|]).
  unfold RecastJSCrowd.agentGoto. rewrite Hnone.
  cbn [RecastJSCrowd.set_recastCrowd RecastJSCrowd.agents
       RecastJSCrowd._agentDestinationArmed RecastJSCrowd._agentDestination
       RecastJSCrowd.recastCrowd RecastJSCrowd.transforms RecastJSCrowd.reachRadii].
  destruct (-1 <? _); [|reflexivity].
  destruct (RecastJSCrowd._agentDestination c !! _); reflexivity.
Qed.

(** X17.  [updateAgentParameters] passes new parameters to the library and
    nothing else: the crowd's five arrays stay as they are, and a
    [reachRadius] in the parameter object is ignored, so the reach radius
    used by the arrival test cannot be changed through it. *)
Theorem updateAgentParameters_scope (c : RecastJSCrowd.t) (index : Z)
    (parameters : AgentParametersUpdate) (r : option Q) :
  let c' := updateAgentParameters c index parameters in
  RecastJSCrowd.transforms c' = RecastJSCrowd.transforms c
  /\ RecastJSCrowd.agents c' = RecastJSCrowd.agents c
  /\ RecastJSCrowd.reachRadii c' = RecastJSCrowd.reachRadii c
  /\ RecastJSCrowd._agentDestinationArmed c' = RecastJSCrowd._agentDestinationArmed c
  /\ RecastJSCrowd._agentDestination c' = RecastJSCrowd._agentDestination c
  /\ updateAgentParameters c index
       (mkAgentParametersUpdate (new_radius parameters) (new_height parameters)
          (new_maxAcceleration parameters) (new_maxSpeed parameters)
          (new_collisionQueryRange parameters)
          (new_pathOptimizationRange parameters)
          (new_separationWeight parameters) r)
     = c'.
Proof.
  intros c'. subst c'. unfold updateAgentParameters.
  destruct (crowd_getAgent _ _) as [agent|]; [|repeat split].
  destruct (agent_parameters _ _) as [agentParams|]; repeat split.
Qed.

End UnknownAgent.

Lemma unknown_agent_witness :
  @getAgentVelocity Bench.recast BenchMore.agents Bench.walking 7
  = mkVector3 0 0 0.
Proof.
  destruct (@unknown_agent Bench.recast BenchMore.agents Bench.walking 7
              Vector3_Zero
              (mkAgentParametersUpdate None None None None None None None None))
    as (_ & H & _).
  - reflexivity.
  - exact H.
Defined.

(** ** The default query extent *)

Section Extents.
Context `{RQ : RecastQueries}.

Lemma at_write_same (s : Extent.t) (address : nat) (v : Vector3) :
  (address < length (Extent.store s))%nat ->
  Extent.at_ (Extent.write s address v) address = v.
Proof.
  intros H. unfold Extent.at_, Extent.write. cbn [Extent.store].
  rewrite list_lookup_insert_eq by exact H. cbn. apply Vector3_eta.
Qed.

Lemma at_write_other (s : Extent.t) (address other : nat) (v : Vector3) :
  address <> other ->
  Extent.at_ (Extent.write s address v) other = Extent.at_ s other.
Proof.
  intros H. unfold Extent.at_, Extent.write. cbn [Extent.store].
  rewrite list_lookup_insert_ne by exact H. reflexivity.
Qed.

Lemma write_valid (s : Extent.t) (address : nat) (v : Vector3) :
  Extent.valid s -> Extent.valid (Extent.write s address v).
Proof.
  intros (H1 & H2 & H3). unfold Extent.valid, Extent.write.
  cbn [Extent.store Extent._tempVec1 Extent._tempVec2 Extent._navMeshQuery].
  rewrite length_insert. repeat split; assumption.
Qed.

(** A new plugin and the ones its methods build hold valid addresses. *)
Lemma extent_methods_valid (s : Extent.t) :
  Extent.valid s ->
  (forall query, Extent.valid (Extent.install_query s query))
  /\ (forall position, Extent.valid (fst (Extent.getClosestPoint s position)))
  /\ (forall extent, Extent.valid (fst (Extent.setDefaultQueryExtent s extent)))
  /\ Extent.valid (fst (Extent.getDefaultQueryExtent s)).
Proof.
  intros Hs. pose proof Hs as (H1 & H2 & H3). split; [|split; [|split]].
  - intros query. unfold Extent.valid, Extent.install_query.
    cbn [Extent.store Extent._tempVec1 Extent._tempVec2 Extent._navMeshQuery].
    rewrite length_app. cbn [length]. repeat split; try lia.
    intros q e [= _ <-]. lia.
  - intros position. unfold Extent.getClosestPoint.
    pose proof (write_valid s (Extent._tempVec1 s) position Hs) as Hw.
    cbn [Extent.write Extent._navMeshQuery Extent._tempVec1] in *.
    destruct (Extent._navMeshQuery s) as [[query extents]|]; exact Hw.
  - intros extent. unfold Extent.setDefaultQueryExtent.
    pose proof (write_valid s (Extent._tempVec1 s) extent Hs) as Hw.
    change (Extent._navMeshQuery (Extent.write s (Extent._tempVec1 s) extent))
      with (Extent._navMeshQuery s).
    destruct (Extent._navMeshQuery s) as [[query extents]|]; [|exact Hw].
    destruct Hw as (W1 & W2 & _). cbn [fst]. unfold Extent.valid.
    cbn [Extent.store Extent._tempVec1 Extent._tempVec2 Extent._navMeshQuery].
    split; [exact W1|]. split; [exact W2|]. intros q e [= _ <-]. exact W1.
  - unfold Extent.getDefaultQueryExtent.
    destruct (Extent._navMeshQuery s) as [[query extents]|] eqn:E; [|exact Hs].
    cbn [fst]. unfold Extent.valid.
    cbn [Extent.store Extent._tempVec1 Extent._tempVec2 Extent._navMeshQuery].
    split; [exact (H3 _ _ eq_refl)|]. split; [exact H2|].
    intros q e [= _ <-]. exact (H3 _ _ eq_refl).
Qed.

(** X18.  With a query context, [setDefaultQueryExtent] returns, and a
    [getDefaultQueryExtent] right after it returns the extent that was
    set. *)
Theorem extent_set_get (s : Extent.t) (extent : Vector3) :
  Extent.valid s ->
  is_Some (Extent._navMeshQuery s) ->
  let s1 := fst (Extent.setDefaultQueryExtent s extent) in
  snd (Extent.setDefaultQueryExtent s extent) = Returned
  /\ Extent.half_extents s1 = Some extent
  /\ snd (Extent.getDefaultQueryExtent s1) = Some extent.
Proof.
  intros (H1 & H2 & H3) [[query extents] Hq] s1. subst s1.
  unfold Extent.setDefaultQueryExtent.
  cbn [Extent.write Extent._navMeshQuery Extent._tempVec1]. rewrite Hq.
  cbn [fst snd]. split; [reflexivity|].
  unfold Extent.half_extents, Extent.getDefaultQueryExtent.
  cbn [Extent._navMeshQuery Extent._tempVec1 snd].
  unfold Extent.at_, Extent.write. cbn [Extent.store].
  rewrite list_lookup_insert_eq by exact H1. cbn.
  rewrite !Vector3_eta. split; reflexivity.
Qed.

Lemma getClosestPoint_aliased (s : Extent.t) (query : NavMeshQuery)
    (position : Vector3) :
  Extent.valid s ->
  Extent._navMeshQuery s = Some (query, Extent._tempVec1 s) ->
  Extent.getClosestPoint s position
  = (Extent.write s (Extent._tempVec1 s) position,
     Some (findClosestPoint query position position)).
Proof.
  intros (V1 & _) Halias. unfold Extent.getClosestPoint.
  change (Extent._navMeshQuery (Extent.write s (Extent._tempVec1 s) position))
    with (Extent._navMeshQuery s).
  change (Extent._tempVec1 (Extent.write s (Extent._tempVec1 s) position))
    with (Extent._tempVec1 s).
  rewrite Halias, at_write_same by exact V1.
  rewrite Vector3_eta. reflexivity.
Qed.

(** X19.  Setting or merely reading the default query extent makes the
    scratch vector and the query context's half extents one object.  From
    then on every [getClosestPoint] searches with its own position as half
    extents and leaves that position as the default query extent: the
    extent that was set is lost at the first query. *)
Theorem extent_lost_at_first_query (s : Extent.t) (extent position : Vector3)
    (s1 : Extent.t) :
  Extent.valid s ->
  is_Some (Extent._navMeshQuery s) ->
  s1 = fst (Extent.setDefaultQueryExtent s extent)
  \/ s1 = fst (Extent.getDefaultQueryExtent s) ->
  Extent.aliased s1
  /\ exists query,
       Extent.getClosestPoint s1 position
       = (Extent.write s1 (Extent._tempVec1 s1) position,
          Some (findClosestPoint query position position))
       /\ Extent.half_extents (fst (Extent.getClosestPoint s1 position))
          = Some position
       /\ snd (Extent.getDefaultQueryExtent (fst (Extent.getClosestPoint s1 position)))
          = Some position
       /\ Extent.aliased (fst (Extent.getClosestPoint s1 position)).
Proof.
  intros Hs [[query extents] Hq] Hs1.
  assert (Hvalid1 : Extent.valid s1).
  { destruct (extent_methods_valid s Hs) as (_ & _ & Hset & Hget).
    destruct Hs1 as [-> | ->]; [apply Hset|exact Hget]. }
  assert (Halias : Extent._navMeshQuery s1 = Some (query, Extent._tempVec1 s1)).
  { destruct Hs1 as [-> | ->].
    - unfold Extent.setDefaultQueryExtent.
      change (Extent._navMeshQuery (Extent.write s (Extent._tempVec1 s) extent))
        with (Extent._navMeshQuery s).
      rewrite Hq. reflexivity.
    - unfold Extent.getDefaultQueryExtent. rewrite Hq. reflexivity. }
  split; [exists query; exact Halias|].
  exists query.
  pose proof (getClosestPoint_aliased s1 query position Hvalid1 Halias) as Hcall.
  split; [exact Hcall|]. rewrite Hcall. cbn [fst].
  destruct Hvalid1 as (V1 & _).
  set (s2 := Extent.write s1 (Extent._tempVec1 s1) position).
  assert (Hq2 : Extent._navMeshQuery s2 = Some (query, Extent._tempVec1 s1))
    by exact Halias.
  assert (Hat : Extent.at_ s2 (Extent._tempVec1 s1) = position)
    by (apply at_write_same; exact V1).
  unfold Extent.half_extents, Extent.getDefaultQueryExtent, Extent.aliased.
  rewrite Hq2. cbn [snd Extent._tempVec1].
  change (Extent.at_ (Extent.mk (Extent.store s2) (Extent._tempVec1 s1)
                        (Extent._tempVec2 s2) (Some (query, Extent._tempVec1 s1))
                        (Extent.bjsRECAST_Vec3 s2)) (Extent._tempVec1 s1))
    with (Extent.at_ s2 (Extent._tempVec1 s1)).
  rewrite Hat, Vector3_eta.
  split; [reflexivity|]. split; [reflexivity|].
  exists query. reflexivity.
Qed.

(** X20.  A new query context starts with the library's half extents,
    whatever was set on the one before it, and keeps them through
    [getClosestPoint] calls for as long as the default query extent is
    neither set nor read. *)
Theorem extent_of_new_query (s : Extent.t) (query : NavMeshQuery)
    (position : Vector3) :
  Extent.valid s ->
  let s1 := Extent.install_query s query in
  Extent.half_extents s1 = Some initial_half_extents
  /\ Extent.getClosestPoint s1 position
     = (Extent.write s1 (Extent._tempVec1 s1) position,
        Some (findClosestPoint query initial_half_extents position))
  /\ Extent.half_extents (fst (Extent.getClosestPoint s1 position))
     = Some initial_half_extents.
Proof.
  intros (H1 & H2 & H3) s1.
  assert (Hat : forall store',
            length store' = length (Extent.store s) ->
            default Vector3_Zero
              ((store' ++ [initial_half_extents]) !! length (Extent.store s))
            = initial_half_extents).
  { intros store' Hlen. rewrite lookup_app_r by lia.
    rewrite Hlen, Nat.sub_diag. reflexivity. }
  assert (Hext : Extent.half_extents s1 = Some initial_half_extents).
  { unfold Extent.half_extents, Extent.at_. cbn. f_equal. apply (Hat _ eq_refl). }
  split; [exact Hext|].
  assert (Hcall : Extent.getClosestPoint s1 position
     = (Extent.write s1 (Extent._tempVec1 s1) position,
        Some (findClosestPoint query initial_half_extents position))).
  { unfold Extent.getClosestPoint, Extent.at_, Extent.write. subst s1.
    cbn [Extent.install_query Extent.store Extent._tempVec1 Extent._tempVec2
         Extent._navMeshQuery Extent.bjsRECAST_Vec3].
    rewrite list_lookup_insert_eq by (rewrite length_app; lia).
    rewrite list_lookup_insert_ne by lia.
    rewrite (Hat _ eq_refl). cbn [default from_option id].
    rewrite !Vector3_eta. reflexivity. }
  split; [exact Hcall|]. rewrite Hcall. cbn [fst].
  unfold Extent.half_extents, Extent.at_, Extent.write. subst s1.
  cbn [Extent.install_query Extent.store Extent._tempVec1 Extent._tempVec2
       Extent._navMeshQuery Extent.bjsRECAST_Vec3].
  rewrite list_lookup_insert_ne by lia. rewrite (Hat _ eq_refl). reflexivity.
Qed.

(** X21.  The crowd's [setDefaultQueryExtent] throws, and changes nothing,
    while [bjsRECAST] holds no [Vec3] (as the plugin's constructor leaves
    it); with a [Vec3] it does what the plugin's [setDefaultQueryExtent]
    does on the vector [Vec3] builds.  The crowd's [getDefaultQueryExtent]
    returns what the plugin's returns. *)
Theorem crowd_extent_delegates (s : Extent.t) (extent : Vector3) :
  (Extent.bjsRECAST_Vec3 s = None ->
   Extent.crowd_setDefaultQueryExtent s extent = (s, Thrown "TypeError"))
  /\ (forall Vec3,
        Extent.bjsRECAST_Vec3 s = Some Vec3 ->
        Extent.crowd_setDefaultQueryExtent s extent
        = Extent.setDefaultQueryExtent s (Vec3 (x extent) (y extent) (z extent)))
  /\ Extent.crowd_getDefaultQueryExtent s = Extent.getDefaultQueryExtent s
  /\ Extent.crowd_setDefaultQueryExtent Extent.new extent
     = (Extent.new, Thrown "TypeError").
Proof.
  unfold Extent.crowd_setDefaultQueryExtent, Extent.crowd_getDefaultQueryExtent.
  split; [intros ->; reflexivity|]. split; [intros Vec3 ->; reflexivity|].
  split; [|reflexivity].
  unfold Extent.getDefaultQueryExtent.
  destruct (Extent._navMeshQuery s) as [[query extents]|]; [|reflexivity].
  cbn. reflexivity.
Qed.

End Extents.



Lemma bench_built_valid :
  @Extent.valid Bench.recast BenchMore.built.
Proof.
  split; [cbn; lia|]. split; [cbn; lia|].
  intros query extents [= _ <-]. cbn. lia.
Qed.

Lemma extent_set_get_witness :
  snd (@Extent.getDefaultQueryExtent Bench.recast
         (fst (@Extent.setDefaultQueryExtent Bench.recast BenchMore.built
                 (mkVector3 2 4 2))))
  = Some (mkVector3 2 4 2).
Proof.
  destruct (@extent_set_get Bench.recast BenchMore.built (mkVector3 2 4 2))
    as (_ & _ & H).
  - exact bench_built_valid.
  - eexists. reflexivity.
  - exact H.
Defined.

Lemma extent_lost_at_first_query_witness :
  @Extent.half_extents Bench.recast
    (fst (@Extent.getClosestPoint Bench.recast BenchMore.queries
            (fst (@Extent.setDefaultQueryExtent Bench.recast BenchMore.built
                    (mkVector3 2 4 2)))
            (mkVector3 7 0 9)))
  = Some (mkVector3 7 0 9).
Proof.
  destruct (@extent_lost_at_first_query Bench.recast BenchMore.queries
              BenchMore.built (mkVector3 2 4 2) (mkVector3 7 0 9)
              (fst (@Extent.setDefaultQueryExtent Bench.recast BenchMore.built
                      (mkVector3 2 4 2))))
    as (_ & query & _ & H & _).
  - exact bench_built_valid.
  - eexists. reflexivity.
  - left. reflexivity.
  - exact H.
Defined.

Lemma extent_of_new_query_witness :
  @Extent.half_extents Bench.recast
    (fst (@Extent.getClosestPoint Bench.recast BenchMore.queries BenchMore.built
            (mkVector3 7 0 9)))
  = Some (mkVector3 1 1 1).
Proof.
  destruct (@extent_of_new_query Bench.recast BenchMore.queries
              (@Extent.new Bench.recast) None (mkVector3 7 0 9))
    as (_ & _ & H).
  - split; [cbn; lia|]. split; [cbn; lia|]. discriminate.
  - exact H.
Defined.
